(** * OOI stream status monitor: a shallow embedding of [rsn_status_monitor.py]

    The development follows the Python module top down: the values the
    module handles (strings, counts, timestamps), the rows of the relational
    store, the module level LRU cache, and then the methods of
    [BaseStatusMonitor], [CassStatusMonitor] and [UframeStatusMonitor].

    Conventions of the embedding.
    - Python [str] is [string]; an integer count is [Z]; a number that may be
      fractional (a rate, a threshold, a timestamp in seconds) is a rational
      [Q], so floating point rounding is abstracted away.
    - A [datetime] is the number of seconds since 1970-01-01T00:00:00 (naive
      UTC), again in [Q].
    - The SQLAlchemy session is created with the default [autoflush], so an
      object handed to [session.add] is seen by every later query of the same
      session: the model keeps one store, and [session.add] appends to it.
    - Code that can raise returns a [result]. *)

From Stdlib Require Import List String Ascii ZArith QArith Lia Bool Arith.
From Stdlib Require Import DecimalString.
From Stdlib Require Permutation Sorted.
Import ListNotations.

Local Open Scope string_scope.
Local Open Scope Z_scope.
Local Open Scope list_scope.

(** ** Python strings *)

Module PyStr.

(** [sep.join(parts)] *)
Fixpoint join (sep : string) (parts : list string) : string :=
  match parts with
  | [] => EmptyString
  | [p] => p
  | p :: rest => (p ++ sep ++ join sep rest)%string
  end.

(** [s.split(sep, maxsplit)] for a one character separator: at most
    [maxsplit] splits are done, from the left; the rest of the string is the
    last element.  Empty fields are kept, as Python does when a separator is
    given. *)
Fixpoint split (sep : ascii) (maxsplit : nat) (s : string) {struct s}
  : list string :=
  match maxsplit with
  | O => [s]
  | S m =>
      match s with
      | EmptyString => [EmptyString]
      | String c rest =>
          if Ascii.eqb c sep then EmptyString :: split sep m rest
          else match split sep (S m) rest with
               | [] => [String c EmptyString]
               | field :: fields => String c field :: fields
               end
      end
  end.

(** [sep not in s] *)
Fixpoint lacks (sep : ascii) (s : string) : bool :=
  match s with
  | EmptyString => true
  | String c rest => negb (Ascii.eqb c sep) && lacks sep rest
  end.

(** ['%d' % n] *)
Definition of_int (n : Z) : string := NilZero.string_of_int (Z.to_int n).

End PyStr.

(** ** Outcomes of code that can raise *)

Inductive exn : Type :=
| ValueError        (* unpacking a sequence of the wrong length *)
| TimestampError    (* a timestamp [utcfromtimestamp] refuses: ValueError on
                       Python 2; ValueError, OSError or OverflowError on
                       Python 3, by the size of the number *)
| ConnectionError.  (* [requests.get] could not reach the host *)

Inductive result (A : Type) : Type :=
| Ok (a : A)
| Raise (e : exn).
Arguments Ok {A} a.
Arguments Raise {A} e.

Definition rbind {A B : Type} (r : result A) (k : A -> result B) : result B :=
  match r with
  | Ok a => k a
  | Raise e => Raise e
  end.

Notation "x <- r ;; k" := (rbind r (fun x => k))
  (at level 61, r at next level, right associativity).
Notation "' p <- r ;; k" := (rbind r (fun x => match x with p => k end))
  (at level 61, p pattern, r at next level, right associativity).

(** ** [UframeStatusMonitor.parse_reference_designator]

    [subsite, node, sensor = ref_des.split('-', 2)]: the unpacking raises
    [ValueError] unless the split gives exactly three fields. *)

Definition dash : ascii := "-"%char.

Definition parse_reference_designator (ref_des : string)
  : result (string * string * string) :=
  match PyStr.split dash 2 ref_des with
  | [subsite; node; sensor] => Ok (subsite, node, sensor)
  | _ => Raise ValueError
  end.

(** ** Numbers as Python compares them *)

(** [x < y] on numbers *)
Definition Qltb (x y : Q) : bool := negb (Qle_bool y x).

(** Truth value of a threshold read from a nullable numeric column: [None]
    and zero are false, every other number is true. *)
Definition truthy (x : option Q) : bool :=
  match x with
  | None => false
  | Some q => negb (Qeq_bool q 0)
  end.

(** [threshold and rate < threshold] *)
Definition and_below (threshold : option Q) (rate : Q) : bool :=
  match threshold with
  | None => false
  | Some q => truthy threshold && Qltb rate q
  end.

(** ** [datetime]

    The proleptic Gregorian ordinal of Python's [datetime] module, and a
    [datetime] as seconds since 1970-01-01T00:00:00. *)

Module Datetime.

Definition is_leap (year : Z) : bool :=
  (year mod 4 =? 0) && (negb (year mod 100 =? 0) || (year mod 400 =? 0)).

Definition days_before_year (year : Z) : Z :=
  let y := year - 1 in y * 365 + y / 4 - y / 100 + y / 400.

Definition days_in_month (year month : Z) : Z :=
  if month =? 2 then (if is_leap year then 29 else 28)
  else if (month =? 4) || (month =? 6) || (month =? 9) || (month =? 11)
       then 30 else 31.

Definition days_before_month (year month : Z) : Z :=
  fold_left (fun acc m => acc + days_in_month year (Z.of_nat m))
            (seq 1 (Z.to_nat (month - 1))) 0.

Definition ymd2ord (year month day : Z) : Z :=
  days_before_year year + days_before_month year month + day.

(** [datetime.datetime(year, month, day)] *)
Definition datetime (year month day : Z) : Q :=
  inject_Z ((ymd2ord year month day - ymd2ord 1970 1 1) * 86400).

(** [(a - b).total_seconds()] *)
Definition total_seconds_between (a b : Q) : Q := a - b.

(** [datetime.MINYEAR], [datetime.MAXYEAR] *)
Definition MINYEAR : Z := 1.
Definition MAXYEAR : Z := 9999.

(** [datetime.datetime.utcfromtimestamp(t)]: raises when the year falls
    outside [MINYEAR .. MAXYEAR].  Which exception that is depends on the
    interpreter and on how far out of range the number is, so it is one
    [TimestampError] here.  Rounding to microseconds is not modelled. *)
Definition utcfromtimestamp (t : Q) : result Q :=
  if Qle_bool (datetime MINYEAR 1 1) t && Qltb t (datetime (MAXYEAR + 1) 1 1)
  then Ok t
  else Raise TimestampError.

End Datetime.

(** ** The relational model ([model.rsn_status_model])

    The classes are imported by the monitor; their module is not part of the
    sources at hand, so rows carry exactly the attributes the monitor reads
    and writes, plus the primary key the ORM compares objects by. *)

Module ReferenceDesignator.
Record t : Type := mk { id : nat; name : string }.
End ReferenceDesignator.

Module ExpectedStream.
Record t : Type := mk {
  id : nat;
  name : string;
  method : string;
  rate : option Q;
  warn_interval : option Q;
  fail_interval : option Q
}.
End ExpectedStream.

Module DeployedStream.
Record t : Type := mk {
  id : nat;
  ref_des : ReferenceDesignator.t;
  expected_stream : ExpectedStream.t
}.
End DeployedStream.

Module Counts.
Record t : Type := mk {
  stream : DeployedStream.t;
  particle_count : Z;
  timestamp : Q
}.

(** Modelled from the spec: [Counts.rate] lives in [model.rsn_status_model],
    which is missing; the data model gives
    [(this.particle_count - prior.particle_count) /
     (this.timestamp - prior.timestamp)].
    The spec gives no value for two samples of equal timestamp; [Qdiv] yields
    0 there. *)
Definition rate (this prior : t) : Q :=
  inject_Z (particle_count this - particle_count prior)
  / (timestamp this - timestamp prior).
End Counts.

Record Store : Type := mkStore {
  reference_designators : list ReferenceDesignator.t;
  expected_streams : list ExpectedStream.t;
  deployed_streams : list DeployedStream.t;
  counts : list Counts.t
}.

(** The next value of a table's primary key sequence. *)
Definition next_id (ids : list nat) : nat := S (list_max ids).

(** [ReferenceDesignator(name=refdes)] followed by [session.add] *)
Definition add_reference_designator (refdes : string) (st : Store)
  : ReferenceDesignator.t * Store :=
  let r := ReferenceDesignator.mk
             (next_id (map ReferenceDesignator.id (reference_designators st)))
             refdes in
  (r, mkStore (reference_designators st ++ [r]) (expected_streams st)
              (deployed_streams st) (counts st)).

(** [ExpectedStream(name=stream, method=method)] followed by [session.add]:
    the columns not given to the constructor stay [None]. *)
Definition add_expected_stream (stream method : string) (st : Store)
  : ExpectedStream.t * Store :=
  let e := ExpectedStream.mk
             (next_id (map ExpectedStream.id (expected_streams st)))
             stream method None None None in
  (e, mkStore (reference_designators st) (expected_streams st ++ [e])
              (deployed_streams st) (counts st)).

(** [DeployedStream(ref_des=_refdes, expected_stream=expected)] followed by
    [session.add] *)
Definition add_deployed_stream (r : ReferenceDesignator.t)
  (e : ExpectedStream.t) (st : Store) : DeployedStream.t * Store :=
  let d := DeployedStream.mk
             (next_id (map DeployedStream.id (deployed_streams st))) r e in
  (d, mkStore (reference_designators st) (expected_streams st)
              (deployed_streams st ++ [d]) (counts st)).

(** [session.add(Counts(...))] *)
Definition add_counts (c : Counts.t) (st : Store) : Store :=
  mkStore (reference_designators st) (expected_streams st)
          (deployed_streams st) (counts st ++ [c]).

(** Filters of the queries.  Comparing a relationship with an object compares
    primary keys. *)
Definition refdes_named (refdes : string) (r : ReferenceDesignator.t) : bool :=
  String.eqb (ReferenceDesignator.name r) refdes.

Definition expected_named (stream method : string) (e : ExpectedStream.t)
  : bool :=
  String.eqb (ExpectedStream.name e) stream
  && String.eqb (ExpectedStream.method e) method.

Definition deployed_of (r : ReferenceDesignator.t) (e : ExpectedStream.t)
  (d : DeployedStream.t) : bool :=
  Nat.eqb (ReferenceDesignator.id (DeployedStream.ref_des d))
          (ReferenceDesignator.id r)
  && Nat.eqb (ExpectedStream.id (DeployedStream.expected_stream d))
             (ExpectedStream.id e).

Definition counts_of (d : DeployedStream.t) (c : Counts.t) : bool :=
  Nat.eqb (DeployedStream.id (Counts.stream c)) (DeployedStream.id d).

(** [order_by(Counts.timestamp.desc())]: a stable sort, newest first.  SQL
    leaves the order of rows of equal timestamp open; here they stay in
    insertion order.  The statements below use of this order only that it is
    a permutation with no later timestamp after an earlier one; where two
    samples of equal timestamp would matter, a hypothesis rules them out. *)
Fixpoint insert_desc (c : Counts.t) (sorted : list Counts.t) : list Counts.t :=
  match sorted with
  | [] => [c]
  | x :: rest =>
      if Qle_bool (Counts.timestamp x) (Counts.timestamp c)
      then c :: x :: rest
      else x :: insert_desc c rest
  end.

Fixpoint order_by_timestamp_desc (l : list Counts.t) : list Counts.t :=
  match l with
  | [] => []
  | c :: rest => insert_desc c (order_by_timestamp_desc rest)
  end.

(** ** The module level cache: [cachetools.LRUCache(3000)]

    Entries are kept from least to most recently used.  The key is the
    argument tuple of the cached method; there is one monitor, so [self] is
    left out of it. *)

Module LRUCache.

Definition key : Type := (string * string * string)%type.
Definition t : Type := list (key * DeployedStream.t).

Definition maxsize : nat := 3000.

Definition key_eqb (a b : key) : bool :=
  let '(a1, a2, a3) := a in
  let '(b1, b2, b3) := b in
  String.eqb a1 b1 && String.eqb a2 b2 && String.eqb a3 b3.

Fixpoint lookup (k : key) (c : t) : option DeployedStream.t :=
  match c with
  | [] => None
  | (k', v) :: rest => if key_eqb k' k then Some v else lookup k rest
  end.

Definition remove (k : key) (c : t) : t :=
  filter (fun kv => negb (key_eqb (fst kv) k)) c.

(** [cache[k]]: a hit makes [k] the most recently used key; a miss is
    [KeyError], here [None]. *)
Definition getitem (k : key) (c : t) : option (DeployedStream.t * t) :=
  match lookup k c with
  | Some v => Some (v, remove k c ++ [(k, v)])
  | None => None
  end.

(** [cache[k] = v]: room for a new key is made by evicting least recently
    used entries while the cache is full. *)
Definition setitem (k : key) (v : DeployedStream.t) (c : t) : t :=
  match lookup k c with
  | Some _ => remove k c ++ [(k, v)]
  | None =>
      skipn (S (List.length c) - maxsize) c ++ [(k, v)]
  end.

End LRUCache.

(** ** What a monitor works on: the session's store and the cache *)

Record World : Type := mkWorld {
  store : Store;
  cache : LRUCache.t
}.

(** ** [BaseStatusMonitor] *)

Inductive State : Type := OPERATIONAL | PARTIAL | FAILURE.

(** [ntp_epoch_offset =
     (datetime.datetime(1970, 1, 1) - datetime.datetime(1900, 1, 1))
       .total_seconds()] *)
Definition ntp_epoch_offset : Q :=
  Datetime.total_seconds_between (Datetime.datetime 1970 1 1)
                                 (Datetime.datetime 1900 1 1).

(** [last_rate]: the two newest [Counts] of the stream. *)
Definition last_rate (st : Store) (deployed_stream : DeployedStream.t) : Q :=
  let counts :=
    firstn 2 (order_by_timestamp_desc
                (filter (counts_of deployed_stream) (counts st))) in
  match counts with
  | c0 :: c1 :: _ => Counts.rate c0 c1
  | _ => 0%Q                       (* len(counts) < 2 *)
  end.

(** [status] *)
Definition status (st : Store) (deployed_stream : DeployedStream.t) : State :=
  let state := FAILURE in
  let rate := last_rate st deployed_stream in
  let warn_interval :=
    ExpectedStream.warn_interval
      (DeployedStream.expected_stream deployed_stream) in
  let fail_interval :=
    ExpectedStream.fail_interval
      (DeployedStream.expected_stream deployed_stream) in
  let expected_rate :=
    ExpectedStream.fail_interval
      (DeployedStream.expected_stream deployed_stream) in
  if and_below warn_interval rate then
    let state := OPERATIONAL in
    if and_below expected_rate rate then PARTIAL else state
  else if and_below fail_interval rate then PARTIAL
  else state.

(** The function under the [@cachetools.cached(cache)] decorator. *)
Definition _get_or_create_stream__wrapped (refdes stream method : string)
  (st : Store) : DeployedStream.t * Store :=
  let '(_refdes, st) :=
    match find (refdes_named refdes) (reference_designators st) with
    | Some r => (r, st)
    | None => add_reference_designator refdes st
    end in
  let '(expected, st) :=
    match find (expected_named stream method) (expected_streams st) with
    | Some e => (e, st)
    | None => add_expected_stream stream method st
    end in
  match find (deployed_of _refdes expected) (deployed_streams st) with
  | Some d => (d, st)
  | None => add_deployed_stream _refdes expected st
  end.

(** [_get_or_create_stream], as callers reach it: through the cache. *)
Definition _get_or_create_stream (refdes stream method : string) (w : World)
  : DeployedStream.t * World :=
  let k := (refdes, stream, method) in
  match LRUCache.getitem k (cache w) with
  | Some (v, c) => (v, mkWorld (store w) c)
  | None =>
      let '(v, st) :=
        _get_or_create_stream__wrapped refdes stream method (store w) in
      (v, mkWorld st (LRUCache.setitem k v (cache w)))
  end.

(** [_get_last_count] *)
Definition _get_last_count (st : Store) (deployed_stream : DeployedStream.t)
  : option Counts.t :=
  hd_error (order_by_timestamp_desc
              (filter (counts_of deployed_stream) (counts st))).

(** ** [CassStatusMonitor] *)

Module Cass.

(** A row of the [stream_metadata] table of Cassandra. *)
Record stream_metadata : Type := mkMeta {
  subsite : string;
  node : string;
  sensor : string;
  stream : string;
  method : string;
  count : Z;
  last : Q
}.

(** A result row is a plain tuple: its fields are known by position only. *)
Definition row : Type :=
  (string * string * string * string * string * Z * Q)%type.

(** [select subsite, node, sensor, stream, method, count, last
     from stream_metadata] *)
Definition _query_cassandra (cassandra : list stream_metadata) : list row :=
  map (fun m => (subsite m, node m, sensor m, stream m, method m, count m,
                 last m))
      cassandra.

(** The body of the loop of [_counts_from_rows]. *)
Definition ingest_row (w : World) (r : row) : result World :=
  let '(subsite, node, sensor, method, stream, count, ntp_timestamp) := r in
  timestamp <-
    Datetime.utcfromtimestamp (ntp_timestamp - ntp_epoch_offset) ;;
  let refdes := PyStr.join "-" [subsite; node; sensor] in
  let '(deployed, w) := _get_or_create_stream refdes stream method w in
  let last_count := _get_last_count (store w) deployed in
  if match last_count with
     | None => true
     | Some lc => negb (Counts.particle_count lc =? count)
     end
  then Ok (mkWorld (add_counts (Counts.mk deployed count timestamp) (store w))
                   (cache w))
  else Ok w.

(** [_counts_from_rows]: the rows are taken in order; an exception leaves
    the loop, and the transaction of [session.begin()] is rolled back. *)
Fixpoint _counts_from_rows (rows : list row) (w : World) : result World :=
  match rows with
  | [] => Ok w
  | r :: rest => w <- ingest_row w r ;; _counts_from_rows rest w
  end.

Definition gather_all (cassandra : list stream_metadata) (w : World)
  : result World :=
  _counts_from_rows (_query_cassandra cassandra) w.

End Cass.

(** ** [UframeStatusMonitor] *)

Module Uframe.

(** An element of the JSON array the metadata service answers with. *)
Record stream_dict : Type := mkDict {
  stream : string;
  method : string;
  count : Z;
  endTime : Q
}.

Record response : Type := mkResponse {
  status_code : Z;
  json : list stream_dict
}.

(** The monitor's host and port, and the network as [requests.get] sees
    it. *)
Record monitor : Type := mkMonitor {
  uframe_host : string;
  uframe_port : Z;
  requests_get : string -> result response
}.

(** [EDEX_BASE_URL % (host, port, subsite, node, sensor) + '/metadata/times'] *)
Definition metadata_url (self : monitor) (subsite node sensor : string)
  : string :=
  ("http://" ++ uframe_host self ++ ":" ++ PyStr.of_int (uframe_port self)
   ++ "/sensor/inv/" ++ subsite ++ "/" ++ node ++ "/" ++ sensor
   ++ "/metadata/times")%string.

Definition matches (stream method : string) (d : stream_dict) : bool :=
  String.eqb (Uframe.stream d) stream && String.eqb (Uframe.method d) method.

(** [_query_api].  [status_code is not 200] compares an [int] with a small
    integer literal, which CPython shares: it is read as [!=]. *)
Definition _query_api (self : monitor) (deployed_stream : DeployedStream.t)
  : result (Z * Q) :=
  let count := 0 in
  let timestamp := 0%Q in
  '(subsite, node, sensor) <-
    parse_reference_designator
      (ReferenceDesignator.name (DeployedStream.ref_des deployed_stream)) ;;
  let stream :=
    ExpectedStream.name (DeployedStream.expected_stream deployed_stream) in
  let method :=
    ExpectedStream.method (DeployedStream.expected_stream deployed_stream) in
  let url := metadata_url self subsite node sensor in
  response <- requests_get self url ;;
  if negb (status_code response =? 200) then Ok (count, timestamp)
  else
    match find (matches stream method) (json response) with
    | Some stream_dict =>
        Ok (Uframe.count stream_dict, endTime stream_dict)
    | None => Ok (count, timestamp)
    end.

(** [_create_counts] *)
Definition _create_counts (self : monitor) (deployed_stream : DeployedStream.t)
  (w : World) : result (Counts.t * World) :=
  '(count, timestamp) <- _query_api self deployed_stream ;;
  let counts := Counts.mk deployed_stream count timestamp in
  Ok (counts, mkWorld (add_counts counts (store w)) (cache w)).

(** The loop of [gather_all] over the result of
    [session.query(DeployedStream).all()]. *)
Fixpoint for_each_stream (self : monitor) (streams : list DeployedStream.t)
  (w : World) : result World :=
  match streams with
  | [] => Ok w
  | stream :: rest =>
      '(_, w) <- _create_counts self stream w ;;
      for_each_stream self rest w
  end.

Definition gather_all (self : monitor) (w : World) : result World :=
  for_each_stream self (deployed_streams (store w)) w.

End Uframe.

(** ** Vocabulary of the statements *)

(** A threshold is set: neither null nor zero. *)
Definition is_set (threshold : option Q) : Prop :=
  exists q, threshold = Some q /\ ~ (q == 0)%Q.

(** A threshold is set and the rate is below it. *)
Definition set_and_below (threshold : option Q) (rate : Q) : Prop :=
  exists q, threshold = Some q /\ ~ (q == 0)%Q /\ (rate < q)%Q.

(** The stream a triple resolves to in a store that already knows it. *)
Definition lookup_stream (st : Store) (refdes stream method : string)
  : option DeployedStream.t :=
  match find (refdes_named refdes) (reference_designators st) with
  | None => None
  | Some r =>
      match find (expected_named stream method) (expected_streams st) with
      | None => None
      | Some e => find (deployed_of r e) (deployed_streams st)
      end
  end.

(** The cache is derived from the store: what it holds for a key is what the
    store resolves the key to. *)
Definition cache_coherent (w : World) : Prop :=
  forall refdes stream method d,
    In ((refdes, stream, method), d) (cache w) ->
    lookup_stream (store w) refdes stream method = Some d.

(** The uniqueness constraints of the three identity tables. *)
Definition unique_identities (st : Store) : Prop :=
  NoDup (map ReferenceDesignator.name (reference_designators st))
  /\ NoDup (map (fun e => (ExpectedStream.name e, ExpectedStream.method e))
                (expected_streams st))
  /\ NoDup (map (fun d =>
                   (ReferenceDesignator.id (DeployedStream.ref_des d),
                    ExpectedStream.id (DeployedStream.expected_stream d)))
                (deployed_streams st)).

(** The counts of every stream do not decrease along its timestamps. *)
Definition monotone_counts (cs : list Counts.t) : Prop :=
  forall a b,
    In a cs -> In b cs -> counts_of (Counts.stream a) b = true ->
    (Counts.timestamp a <= Counts.timestamp b)%Q ->
    Counts.particle_count a <= Counts.particle_count b.

(** An entry of the service's answer is the entry of a stream. *)
Definition entry_of (d : DeployedStream.t) (e : Uframe.stream_dict) : Prop :=
  Uframe.stream e = ExpectedStream.name (DeployedStream.expected_stream d)
  /\ Uframe.method e
     = ExpectedStream.method (DeployedStream.expected_stream d).

(** A sample records what [_query_api] answered for its stream. *)
Definition observed (self : Uframe.monitor) (d : DeployedStream.t)
  (c : Counts.t) : Prop :=
  Counts.stream c = d
  /\ Uframe._query_api self d
     = Ok (Counts.particle_count c, Counts.timestamp c).

(** A bulk row that repeats the newest recorded count of its stream. *)
Definition unchanged_row (st : Store) (r : Cass.row) : Prop :=
  let '(subsite, node, sensor, f4, f5, count, ntp_timestamp) := r in
  exists timestamp d lc,
    Datetime.utcfromtimestamp (ntp_timestamp - ntp_epoch_offset)
    = Ok timestamp
    /\ lookup_stream st (PyStr.join "-" [subsite; node; sensor]) f5 f4
       = Some d
    /\ _get_last_count st d = Some lc
    /\ Counts.particle_count lc = count.

(** A per-stream observation that repeats the newest recorded sample. *)
Definition unchanged_observation (self : Uframe.monitor) (st : Store)
  (d : DeployedStream.t) : Prop :=
  exists lc,
    _get_last_count st d = Some lc
    /\ Uframe._query_api self d
       = Ok (Counts.particle_count lc, Counts.timestamp lc).

(** ** Concrete worlds used to run the code *)

Module Example.

Definition empty : World := mkWorld (mkStore [] [] [] []) [].

Definition rd : ReferenceDesignator.t := ReferenceDesignator.mk 1 "A-B-C".

Definition es (warn fail : option Q) : ExpectedStream.t :=
  ExpectedStream.mk 1 "st1" "telemetered" None warn fail.

Definition ds (warn fail : option Q) : DeployedStream.t :=
  DeployedStream.mk 1 rd (es warn fail).

(** The stream of the classifier's boundary cases: warn 10, fail 5. *)
Definition ds_10_5 : DeployedStream.t := ds (Some 10%Q) (Some 5%Q).

(** A store whose only stream has the given samples. *)
Definition store_of (d : DeployedStream.t) (samples : list (Z * Q)) : Store :=
  mkStore [DeployedStream.ref_des d] [DeployedStream.expected_stream d] [d]
          (map (fun s => Counts.mk d (fst s) (snd s)) samples).

(** Two samples one second apart: the rate is the second count. *)
Definition store_with_rate (d : DeployedStream.t) (n : Z) : Store :=
  store_of d [(0, 0%Q); (n, 1%Q)].

(** What [_query_cassandra] returns for one stream of [stream_metadata]. *)
Definition metadata (count : Z) (last : Q) : Cass.stream_metadata :=
  Cass.mkMeta "A" "B" "C" "st1" "telemetered" count last.

Definition row (count : Z) (last : Q) : Cass.row :=
  ("A", "B", "C", "st1", "telemetered", count, last).

(** The first resolution of a triple in the empty world. *)
Definition resolved : DeployedStream.t * World :=
  _get_or_create_stream "A-B-C" "st1" "telemetered" empty.

(** The resolution the bulk ingestion makes for [row]. *)
Definition resolved_by_ingest : DeployedStream.t * World :=
  _get_or_create_stream "A-B-C" "telemetered" "st1" empty.

(** A metadata service that answers every request with the given status and
    entries. *)
Definition service (status : Z) (entries : list Uframe.stream_dict)
  : Uframe.monitor :=
  Uframe.mkMonitor "localhost" 12576
                   (fun _ => Ok (Uframe.mkResponse status entries)).

(** The world the bulk ingestion leaves, started on the empty one. *)
Definition after (rows : list Cass.row) : World :=
  match Cass._counts_from_rows rows empty with
  | Ok w => w
  | Raise _ => empty
  end.

(** One sample of 100 particles, ten seconds into 1970. *)
Definition first_sample : World := after [row 100 2208988810%Q].

(** A stream whose newest sample is (5, 7), and a service that answers
    (5, 7) for it again. *)
Definition quiet_world : World :=
  mkWorld (store_of (ds None None) [(5, 7%Q)]) [].

Definition quiet_service : Uframe.monitor :=
  service 200 [Uframe.mkDict "st1" "telemetered" 5 7%Q].

End Example.

(** ** [BaseStatusMonitor.read_expected_csv]

    [pd.read_csv(filename)] and the selection of the four columns are the
    list of the file's rows, in the order of [fields]: stream, method,
    expected rate, timeout.  Every row is stored as a new [ExpectedStream]
    whose two thresholds are both the timeout; no query is made first. *)

Definition csv_row : Type := (string * string * Q * Q)%type.

Definition add_expected_definition (st : Store) (r : csv_row) : Store :=
  let '(stream, method, rate, timeout) := r in
  let es := ExpectedStream.mk
              (next_id (map ExpectedStream.id (expected_streams st)))
              stream method (Some rate) (Some timeout) (Some timeout) in
  mkStore (reference_designators st) (expected_streams st ++ [es])
          (deployed_streams st) (counts st).

Definition read_expected_csv (rows : list csv_row) (st : Store) : Store :=
  fold_left add_expected_definition rows st.

(** ** More vocabulary *)

(** [s.count(sep)] for a one character separator. *)
Fixpoint count_char (sep : ascii) (s : string) : nat :=
  match s with
  | EmptyString => O
  | String c rest =>
      if Ascii.eqb c sep then S (count_char sep rest) else count_char sep rest
  end.

(** The samples of a stream, as the queries filter them. *)
Definition samples_of (st : Store) (d : DeployedStream.t) : list Counts.t :=
  filter (counts_of d) (counts st).

(** [l] is [l0] with rows appended, [n] of them at most. *)
Definition extends_by {A : Type} (n : nat) (l0 l : list A) : Prop :=
  exists news, l = l0 ++ news /\ (List.length news <= n)%nat.


(** The key of a row of the threshold file. *)
Definition csv_key (r : csv_row) : string * string :=
  let '(stream, method, _, _) := r in (stream, method).

(** ** After a failed batch

    An exception inside [with self.session.begin()] rolls the session back;
    the module level cache is no part of the session and keeps the entries
    made for the rows before the failing one.  [Cass._counts_from_rows]
    gives the exception only; the world the monitor is left with is
    [world_after]. *)

Fixpoint cache_after (rows : list Cass.row) (w : World) : LRUCache.t :=
  match rows with
  | [] => cache w
  | r :: rest =>
      match Cass.ingest_row w r with
      | Ok w1 => cache_after rest w1
      | Raise _ => cache w
      end
  end.

Definition world_after (rows : list Cass.row) (w : World) : World :=
  match Cass._counts_from_rows rows w with
  | Ok w' => w'
  | Raise _ => mkWorld (store w) (cache_after rows w)
  end.

(** The stream has no sample, or its newest sample has another count. *)
Definition differs_from_newest (st : Store) (d : DeployedStream.t)
  (count : Z) : Prop :=
  samples_of st d = []
  \/ exists lc, _get_last_count st d = Some lc
                /\ Counts.particle_count lc <> count.

(** The sample would be the newest of its stream. *)
Definition newer_than_samples (st : Store) (d : DeployedStream.t)
  (timestamp : Q) : Prop :=
  forall c, In c (samples_of st d) -> (Counts.timestamp c < timestamp)%Q.

(** A row that arrives late: 50 particles, five seconds into 1970, for a
    stream whose sample of 100 particles is five seconds newer. *)
Definition late_row : Cass.row := Example.row 50 2208988805%Q.

(** A batch whose second row has a timestamp far beyond year 9999. *)
Definition failing_batch : list Cass.row :=
  [Example.row 100 2208988810%Q; Example.row 5 400000000000%Q].

(** ** Proof steps *)

(** The cases of the three queries of the wrapped resolution. *)
Ltac wrapped_cases Hcall :=
  unfold _get_or_create_stream__wrapped, add_reference_designator,
    add_expected_stream, add_deployed_stream in Hcall;
  destruct (find (refdes_named _) _) as [?r|] eqn:?Hrd;
  simpl in Hcall;
  destruct (find (expected_named _ _) _) as [?e|] eqn:?Hes;
  simpl in Hcall;
  destruct (find (deployed_of _ _) _) as [?d|] eqn:?Hds;
  simpl in Hcall;
  injection Hcall as <- <-.

(** * Properties *)

(** ** Strings *)

Section Split.

Variable sep : ascii.

Lemma split_not_nil (m : nat) (s : string) : PyStr.split sep m s <> [].
Proof.
  revert m; induction s as [|c s IH]; intros [|m]; simpl; try discriminate.
  destruct (Ascii.eqb c sep); [discriminate|].
  destruct (PyStr.split sep (S m) s); discriminate.
Qed.

(** A field without separator, followed by a separator, is split off
    whole. *)
Lemma split_field (m : nat) (field rest : string) :
  PyStr.lacks sep field = true ->
  PyStr.split sep (S m) (field ++ String sep rest)%string
  = field :: PyStr.split sep m rest.
Proof.
  induction field as [|c field IH]; simpl; intros Hlacks.
  - now rewrite Ascii.eqb_refl.
  - apply andb_prop in Hlacks as [Hc Hfield].
    apply negb_true_iff in Hc. rewrite Hc.
    now rewrite (IH Hfield).
Qed.

Lemma split_zero (s : string) : PyStr.split sep 0 s = [s].
Proof. now destruct s. Qed.

End Split.

(** ** Numbers *)

Lemma Qltb_lt (x y : Q) : Qltb x y = true <-> (x < y)%Q.
Proof.
  unfold Qltb. rewrite negb_true_iff, <- not_true_iff_false, Qle_bool_iff.
  split; [apply Qnot_le_lt | apply Qlt_not_le].
Qed.

Lemma truthy_is_set (threshold : option Q) :
  truthy threshold = true <-> is_set threshold.
Proof.
  unfold truthy, is_set. destruct threshold as [q|].
  - rewrite negb_true_iff, <- not_true_iff_false, Qeq_bool_iff. split.
    + intros Hq. now exists q.
    + intros (q' & [= <-] & Hq). exact Hq.
  - split; [discriminate | intros (q & Hq & _); discriminate].
Qed.

Lemma and_below_spec (threshold : option Q) (rate : Q) :
  and_below threshold rate = true <-> set_and_below threshold rate.
Proof.
  unfold and_below, set_and_below. destruct threshold as [q|].
  - rewrite andb_true_iff, truthy_is_set, Qltb_lt. unfold is_set. split.
    + intros ((q' & [= <-] & Hq) & Hlt). now exists q.
    + intros (q' & [= <-] & Hq & Hlt). split; [now exists q | exact Hlt].
  - split; [discriminate | intros (q & Hq & _); discriminate].
Qed.

Lemma and_below_false (threshold : option Q) (rate : Q) :
  and_below threshold rate = false <-> ~ set_and_below threshold rate.
Proof. now rewrite <- and_below_spec, not_true_iff_false. Qed.

Lemma set_and_below_Some (q rate : Q) :
  set_and_below (Some q) rate <-> ~ (q == 0)%Q /\ (rate < q)%Q.
Proof.
  unfold set_and_below. split.
  - intros (q' & [= <-] & H). exact H.
  - intros H. now exists q.
Qed.

Lemma ntp_epoch_offset_value : ntp_epoch_offset = 2208988800%Q.
Proof. reflexivity. Qed.

(** ** Reference designators *)

(** C10.  Joining a subsite and a node that hold no dash with any sensor, and
    parsing the result, gives the three parts back: the parse splits at the
    first two dashes only, so dashes of the sensor are left alone. *)
Theorem parse_reference_designator_join (subsite node sensor : string) :
  PyStr.lacks dash subsite = true ->
  PyStr.lacks dash node = true ->
  parse_reference_designator (PyStr.join "-" [subsite; node; sensor])
  = Ok (subsite, node, sensor).
Proof.
  intros Hsubsite Hnode. unfold parse_reference_designator. simpl PyStr.join.
  change (String "-" ?s) with (String dash s).
  rewrite (split_field dash 1 subsite _ Hsubsite).
  rewrite (split_field dash 0 node _ Hnode).
  now rewrite split_zero.
Qed.

Lemma parse_reference_designator_join_witness :
  PyStr.lacks dash "RS01SBPS" = true
  /\ PyStr.lacks dash "SF01A" = true
  /\ parse_reference_designator
       (PyStr.join "-" ["RS01SBPS"; "SF01A"; "2A-CTDPFA102"])
     = Ok ("RS01SBPS", "SF01A", "2A-CTDPFA102").
Proof.
  split; [reflexivity|]. split; [reflexivity|].
  apply (parse_reference_designator_join "RS01SBPS" "SF01A" "2A-CTDPFA102");
    reflexivity.
Defined.

(** ** The classifier *)

Lemma order_by_timestamp_desc_length (l : list Counts.t) :
  List.length (order_by_timestamp_desc l) = List.length l.
Proof.
  assert (Hins : forall c s,
             List.length (insert_desc c s) = S (List.length s)).
  { intros c s. induction s as [|x s IH]; simpl; [reflexivity|].
    destruct (Qle_bool _ _); simpl; [reflexivity | now rewrite IH]. }
  induction l as [|c l IH]; simpl; [reflexivity|].
  now rewrite Hins, IH.
Qed.

Lemma status_cases (st : Store) (d : DeployedStream.t) :
  let es := DeployedStream.expected_stream d in
  status st d =
  if and_below (ExpectedStream.warn_interval es) (last_rate st d)
  then if and_below (ExpectedStream.fail_interval es) (last_rate st d)
       then PARTIAL else OPERATIONAL
  else if and_below (ExpectedStream.fail_interval es) (last_rate st d)
       then PARTIAL else FAILURE.
Proof. reflexivity. Qed.

Lemma set_and_below_compat (q r r' : Q) :
  (r == r')%Q -> set_and_below (Some q) r <-> set_and_below (Some q) r'.
Proof.
  intros Hr. rewrite !set_and_below_Some. now rewrite Hr.
Qed.

(** C1.  The decision procedure of [status]: FAILURE by default; with the
    warn threshold set and the rate below it, OPERATIONAL, turned into
    PARTIAL when the fail threshold (which is what the expected rate is read
    from) is set and the rate is below it; otherwise PARTIAL when the fail
    threshold is set and the rate is below it; otherwise FAILURE.  With
    warn 10 and fail 5, the rates 8, 3 and 12 give OPERATIONAL, PARTIAL and
    FAILURE. *)
Theorem status_decision_procedure (st : Store) (d : DeployedStream.t) :
  let rate := last_rate st d in
  let warn := ExpectedStream.warn_interval (DeployedStream.expected_stream d) in
  let fail := ExpectedStream.fail_interval (DeployedStream.expected_stream d) in
  (set_and_below warn rate -> set_and_below fail rate ->
   status st d = PARTIAL)
  /\ (set_and_below warn rate -> ~ set_and_below fail rate ->
      status st d = OPERATIONAL)
  /\ (~ set_and_below warn rate -> set_and_below fail rate ->
      status st d = PARTIAL)
  /\ (~ set_and_below warn rate -> ~ set_and_below fail rate ->
      status st d = FAILURE)
  /\ (warn = Some 10%Q -> fail = Some 5%Q ->
      ((rate == 8)%Q -> status st d = OPERATIONAL)
      /\ ((rate == 3)%Q -> status st d = PARTIAL)
      /\ ((rate == 12)%Q -> status st d = FAILURE)).
Proof.
  intros rate warn fail.
  assert (Hcases : forall bw bf,
             and_below warn rate = bw -> and_below fail rate = bf ->
             status st d =
             if bw then (if bf then PARTIAL else OPERATIONAL)
             else (if bf then PARTIAL else FAILURE)).
  { intros bw bf <- <-. apply status_cases. }
  repeat split.
  - intros Hw Hf. apply (Hcases true true); now apply and_below_spec.
  - intros Hw Hf. apply (Hcases true false);
      [now apply and_below_spec | now apply and_below_false].
  - intros Hw Hf. apply (Hcases false true);
      [now apply and_below_false | now apply and_below_spec].
  - intros Hw Hf. apply (Hcases false false); now apply and_below_false.
  - intros Hr. apply (Hcases true false).
    + rewrite H. apply and_below_spec, (set_and_below_compat _ _ _ Hr),
        set_and_below_Some. split; [discriminate | reflexivity].
    + rewrite H0. apply and_below_false.
      rewrite (set_and_below_compat _ _ _ Hr), set_and_below_Some.
      intros [_ Hlt]. discriminate Hlt.
  - intros Hr. apply (Hcases true true).
    + rewrite H. apply and_below_spec, (set_and_below_compat _ _ _ Hr),
        set_and_below_Some. split; [discriminate | reflexivity].
    + rewrite H0. apply and_below_spec, (set_and_below_compat _ _ _ Hr),
        set_and_below_Some. split; [discriminate | reflexivity].
  - intros Hr. apply (Hcases false false).
    + rewrite H. apply and_below_false.
      rewrite (set_and_below_compat _ _ _ Hr), set_and_below_Some.
      intros [_ Hlt]. discriminate Hlt.
    + rewrite H0. apply and_below_false.
      rewrite (set_and_below_compat _ _ _ Hr), set_and_below_Some.
      intros [_ Hlt]. discriminate Hlt.
Qed.

Lemma status_decision_procedure_witness :
  status (Example.store_with_rate Example.ds_10_5 8) Example.ds_10_5
  = OPERATIONAL
  /\ status (Example.store_with_rate Example.ds_10_5 3) Example.ds_10_5
     = PARTIAL
  /\ status (Example.store_with_rate Example.ds_10_5 12) Example.ds_10_5
     = FAILURE.
Proof.
  pose (d := Example.ds_10_5). split; [|split].
  - apply (proj2 (proj2 (proj2 (proj2
             (status_decision_procedure (Example.store_with_rate d 8) d))))
             eq_refl eq_refl).
    reflexivity.
  - apply (proj2 (proj2 (proj2 (proj2
             (status_decision_procedure (Example.store_with_rate d 3) d))))
             eq_refl eq_refl).
    reflexivity.
  - apply (proj2 (proj2 (proj2 (proj2
             (status_decision_procedure (Example.store_with_rate d 12) d))))
             eq_refl eq_refl).
    reflexivity.
Defined.

(** C6.  With fewer than two recorded [Counts] of the stream, [last_rate]
    returns 0, and [status] still returns a state; with neither threshold
    set that state is FAILURE. *)
Theorem last_rate_few_counts (st : Store) (d : DeployedStream.t) :
  (List.length (filter (counts_of d) (counts st)) < 2)%nat ->
  last_rate st d = 0%Q
  /\ (exists s, status st d = s)
  /\ (~ is_set (ExpectedStream.warn_interval
                  (DeployedStream.expected_stream d)) ->
      ~ is_set (ExpectedStream.fail_interval
                  (DeployedStream.expected_stream d)) ->
      status st d = FAILURE).
Proof.
  intros Hfew. split; [|split].
  - unfold last_rate.
    rewrite <- order_by_timestamp_desc_length in Hfew.
    destruct (order_by_timestamp_desc _) as [|c0 [|c1 l]];
      simpl in *; [reflexivity | reflexivity | lia].
  - now exists (status st d).
  - intros Hwarn Hfail. rewrite status_cases. cbv zeta.
    assert (Hnot : forall t r, ~ is_set t -> and_below t r = false).
    { intros t r Ht. apply and_below_false.
      intros (q & Hq & Hnz & _). apply Ht. now exists q. }
    now rewrite !Hnot.
Qed.

Lemma last_rate_few_counts_witness :
  last_rate (Example.store_of (Example.ds None None) [(100, 10%Q)])
            (Example.ds None None) = 0%Q
  /\ status (Example.store_of (Example.ds None None) [(100, 10%Q)])
            (Example.ds None None) = FAILURE.
Proof.
  pose (d := Example.ds None None).
  pose (st := Example.store_of d [(100, 10%Q)]).
  assert (Hfew : (List.length (filter (counts_of d) (counts st)) < 2)%nat)
    by (simpl; lia).
  destruct (last_rate_few_counts st d Hfew) as (Hrate & _ & Hstatus).
  split; [exact Hrate|].
  apply Hstatus; intros (q & Hq & _); discriminate Hq.
Defined.

(** ** Identity resolution *)

Lemma find_app {A : Type} (p : A -> bool) (l l' : list A) :
  find p (l ++ l')
  = match find p l with Some x => Some x | None => find p l' end.
Proof.
  induction l as [|x l IH]; simpl; [reflexivity|].
  now destruct (p x).
Qed.

Lemma refdes_named_mk (i : nat) (refdes : string) :
  refdes_named refdes (ReferenceDesignator.mk i refdes) = true.
Proof. apply String.eqb_refl. Qed.

Lemma expected_named_mk (i : nat) (stream method : string) x y z :
  expected_named stream method (ExpectedStream.mk i stream method x y z)
  = true.
Proof. unfold expected_named; simpl. now rewrite !String.eqb_refl. Qed.

Lemma deployed_of_mk (i : nat) r e :
  deployed_of r e (DeployedStream.mk i r e) = true.
Proof. unfold deployed_of; simpl. now rewrite !Nat.eqb_refl. Qed.

(** Resolution only ever touches the three identity tables. *)
Lemma wrapped_counts refdes stream method st d st' :
  _get_or_create_stream__wrapped refdes stream method st = (d, st') ->
  counts st' = counts st.
Proof. intros Hcall. wrapped_cases Hcall; reflexivity. Qed.

(** After resolution, the store resolves the triple to the stream that was
    returned. *)
Lemma wrapped_lookup refdes stream method st d st' :
  _get_or_create_stream__wrapped refdes stream method st = (d, st') ->
  lookup_stream st' refdes stream method = Some d.
Proof.
  intros Hcall.
  wrapped_cases Hcall; unfold lookup_stream; simpl;
    rewrite ?find_app, ?Hrd, ?Hes, ?Hds; simpl;
    rewrite ?refdes_named_mk, ?expected_named_mk; simpl;
    rewrite ?find_app, ?Hrd, ?Hes, ?Hds; simpl;
    rewrite ?deployed_of_mk; reflexivity.
Qed.

(** A triple the store already resolves is returned without a write. *)
Lemma wrapped_found refdes stream method st d :
  lookup_stream st refdes stream method = Some d ->
  _get_or_create_stream__wrapped refdes stream method st = (d, st).
Proof.
  unfold lookup_stream, _get_or_create_stream__wrapped.
  destruct (find (refdes_named _) _) as [r|]; [|discriminate].
  destruct (find (expected_named _ _) _) as [e|]; [|discriminate].
  now intros ->.
Qed.

(** What the store resolves stays resolved when identities are added. *)
Lemma wrapped_lookup_stable refdes stream method st d st' r s m d0 :
  _get_or_create_stream__wrapped refdes stream method st = (d, st') ->
  lookup_stream st r s m = Some d0 ->
  lookup_stream st' r s m = Some d0.
Proof.
  intros Hcall. unfold lookup_stream.
  destruct (find (refdes_named r) _) as [r0|] eqn:Hr0; [|discriminate].
  destruct (find (expected_named s m) _) as [e0|] eqn:He0; [|discriminate].
  intros Hd0.
  wrapped_cases Hcall; simpl;
    repeat first [rewrite find_app | rewrite Hr0 | rewrite He0 | rewrite Hd0];
    reflexivity.
Qed.

Lemma NoDup_snoc {A : Type} (l : list A) (y : A) :
  NoDup l -> ~ In y l -> NoDup (l ++ [y]).
Proof.
  intros Hl Hy. induction Hl as [|x l Hx Hl IH]; simpl.
  - constructor; [intros [] | constructor].
  - constructor.
    + rewrite in_app_iff. intros [Hin | [-> | []]]; [now apply Hx|].
      apply Hy. now left.
    + apply IH. intros Hin. apply Hy. now right.
Qed.

Lemma NoDup_map_snoc {A B : Type} (f : A -> B) (p : A -> bool) l x :
  (forall y, f y = f x -> p y = true) ->
  find p l = None ->
  NoDup (map f l) -> NoDup (map f (l ++ [x])).
Proof.
  intros Hp Hnone Hl. rewrite map_app. apply NoDup_snoc; [exact Hl|].
  intros Hin. apply in_map_iff in Hin as (y & Hy & Hin).
  pose proof (find_none _ _ Hnone y Hin) as Hfalse.
  rewrite (Hp y Hy) in Hfalse. discriminate.
Qed.

(** Resolution keeps the uniqueness constraints: a row is written only
    after the query for it came back empty. *)
Lemma wrapped_unique refdes stream method st d st' :
  _get_or_create_stream__wrapped refdes stream method st = (d, st') ->
  unique_identities st -> unique_identities st'.
Proof.
  intros Hcall (Hr & He & Hd).
  assert (Hnew_r : forall i,
             NoDup (map ReferenceDesignator.name (reference_designators st)) ->
             find (refdes_named refdes) (reference_designators st) = None ->
             NoDup (map ReferenceDesignator.name
                        (reference_designators st
                         ++ [ReferenceDesignator.mk i refdes]))).
  { intros i Hnd Hnone.
    apply (NoDup_map_snoc _ (refdes_named refdes)); [|exact Hnone|exact Hnd].
    intros y Hy. unfold refdes_named. rewrite Hy. apply String.eqb_refl. }
  assert (Hnew_e : forall i x y z,
             find (expected_named stream method) (expected_streams st) = None ->
             NoDup (map (fun e => (ExpectedStream.name e,
                                   ExpectedStream.method e))
                        (expected_streams st
                         ++ [ExpectedStream.mk i stream method x y z]))).
  { intros i x y z Hnone.
    apply (NoDup_map_snoc _ (expected_named stream method));
      [|exact Hnone|exact He].
    intros e' [= Hn Hm]. unfold expected_named. rewrite Hn, Hm.
    now rewrite !String.eqb_refl. }
  assert (Hnew_d : forall i r e l,
             NoDup (map (fun d =>
                           (ReferenceDesignator.id (DeployedStream.ref_des d),
                            ExpectedStream.id
                              (DeployedStream.expected_stream d))) l) ->
             find (deployed_of r e) l = None ->
             NoDup (map (fun d =>
                           (ReferenceDesignator.id (DeployedStream.ref_des d),
                            ExpectedStream.id
                              (DeployedStream.expected_stream d)))
                        (l ++ [DeployedStream.mk i r e]))).
  { intros i r e l Hnd Hnone.
    apply (NoDup_map_snoc _ (deployed_of r e)); [|exact Hnone|exact Hnd].
    intros d' [= Hn Hm]. unfold deployed_of. rewrite Hn, Hm.
    now rewrite !Nat.eqb_refl. }
  wrapped_cases Hcall; unfold unique_identities; simpl;
    repeat split; auto.
Qed.

(** ** The cache *)

Lemma key_eqb_eq (a b : LRUCache.key) :
  LRUCache.key_eqb a b = true <-> a = b.
Proof.
  destruct a as [[a1 a2] a3], b as [[b1 b2] b3]. unfold LRUCache.key_eqb.
  rewrite !andb_true_iff, !String.eqb_eq. split.
  - now intros [[-> ->] ->].
  - now intros [= -> -> ->].
Qed.

Lemma key_eqb_refl (k : LRUCache.key) : LRUCache.key_eqb k k = true.
Proof. now apply key_eqb_eq. Qed.

Lemma lookup_In k c v : LRUCache.lookup k c = Some v -> In (k, v) c.
Proof.
  induction c as [|[k' v'] c IH]; simpl; [discriminate|].
  destruct (LRUCache.key_eqb k' k) eqn:Hk.
  - intros [= ->]. apply key_eqb_eq in Hk as ->. now left.
  - intros Hc. right. now apply IH.
Qed.

Lemma lookup_app k c c' :
  LRUCache.lookup k (c ++ c')
  = match LRUCache.lookup k c with
    | Some v => Some v
    | None => LRUCache.lookup k c'
    end.
Proof.
  induction c as [|[k' v'] c IH]; simpl; [reflexivity|].
  now destruct (LRUCache.key_eqb k' k).
Qed.

Lemma lookup_remove k c : LRUCache.lookup k (LRUCache.remove k c) = None.
Proof.
  induction c as [|[k' v'] c IH]; simpl; [reflexivity|].
  destruct (LRUCache.key_eqb k' k) eqn:Hk; simpl; [exact IH|].
  now rewrite Hk.
Qed.

Lemma lookup_skipn_none k n c :
  LRUCache.lookup k c = None -> LRUCache.lookup k (skipn n c) = None.
Proof.
  revert c; induction n as [|n IH]; intros [|[k' v'] c]; simpl; auto.
  destruct (LRUCache.key_eqb k' k); [discriminate | apply IH].
Qed.

Lemma lookup_singleton k v : LRUCache.lookup k [(k, v)] = Some v.
Proof. simpl. now rewrite key_eqb_refl. Qed.

Lemma getitem_hit k c v :
  LRUCache.lookup k c = Some v ->
  exists c', LRUCache.getitem k c = Some (v, c')
             /\ LRUCache.lookup k c' = Some v
             /\ (forall kv, In kv c' -> In kv c).
Proof.
  intros Hv. unfold LRUCache.getitem. rewrite Hv.
  eexists; split; [reflexivity|]. split.
  - now rewrite lookup_app, lookup_remove, lookup_singleton.
  - intros kv. rewrite in_app_iff. intros [Hin | [<- | []]].
    + unfold LRUCache.remove in Hin. now apply filter_In in Hin.
    + now apply lookup_In.
Qed.

Lemma setitem_miss k c v :
  LRUCache.lookup k c = None ->
  LRUCache.lookup k (LRUCache.setitem k v c) = Some v
  /\ (forall kv, In kv (LRUCache.setitem k v c) -> In kv c \/ kv = (k, v)).
Proof.
  intros Hnone. unfold LRUCache.setitem. rewrite Hnone. split.
  - now rewrite lookup_app, (lookup_skipn_none _ _ _ Hnone), lookup_singleton.
  - intros kv. rewrite in_app_iff. intros [Hin | [<- | []]]; [left|now right].
    rewrite <- (firstn_skipn (S (List.length c) - LRUCache.maxsize) c).
    apply in_or_app. now right.
Qed.

(** ** Resolution through the cache *)

Lemma lookup_getitem_none k c :
  LRUCache.lookup k c = None -> LRUCache.getitem k c = None.
Proof. intros H. unfold LRUCache.getitem. now rewrite H. Qed.

(** The two ways a call goes: a hit leaves the store alone, a miss runs the
    wrapped function and records its result. *)
Lemma get_or_create_stream_cases refdes stream method w d w1 :
  _get_or_create_stream refdes stream method w = (d, w1) ->
  (LRUCache.lookup (refdes, stream, method) (cache w) = Some d
   /\ store w1 = store w
   /\ (forall kv, In kv (cache w1) -> In kv (cache w)))
  \/ (LRUCache.lookup (refdes, stream, method) (cache w) = None
      /\ _get_or_create_stream__wrapped refdes stream method (store w)
         = (d, store w1)
      /\ (forall kv, In kv (cache w1) ->
                     In kv (cache w) \/ kv = ((refdes, stream, method), d)))
.
Proof.
  unfold _get_or_create_stream.
  destruct (LRUCache.lookup (refdes, stream, method) (cache w)) as [v|] eqn:Hk.
  - destruct (getitem_hit _ _ _ Hk) as (c' & -> & _ & Hsub).
    intros [= <- <-]. left. auto.
  - rewrite (lookup_getitem_none _ _ Hk).
    destruct (_get_or_create_stream__wrapped _ _ _ _) as [v st] eqn:Hcall.
    intros [= <- <-]. right. simpl. repeat split.
    apply (setitem_miss _ _ v Hk).
Qed.

(** After a call the cache holds the returned stream under the key. *)
Lemma get_or_create_stream_cached refdes stream method w d w1 :
  _get_or_create_stream refdes stream method w = (d, w1) ->
  LRUCache.lookup (refdes, stream, method) (cache w1) = Some d.
Proof.
  unfold _get_or_create_stream.
  destruct (LRUCache.lookup (refdes, stream, method) (cache w)) as [v|] eqn:Hk.
  - destruct (getitem_hit _ _ _ Hk) as (c' & -> & Hv & _).
    now intros [= <- <-].
  - rewrite (lookup_getitem_none _ _ Hk).
    destruct (_get_or_create_stream__wrapped _ _ _ _) as [v st].
    intros [= <- <-]. apply (setitem_miss _ _ v Hk).
Qed.

(** A key the cache holds is served from it. *)
Lemma get_or_create_stream_hit refdes stream method w d :
  LRUCache.lookup (refdes, stream, method) (cache w) = Some d ->
  exists c, _get_or_create_stream refdes stream method w
            = (d, mkWorld (store w) c).
Proof.
  intros Hk. unfold _get_or_create_stream.
  destruct (getitem_hit _ _ _ Hk) as (c' & -> & _). now exists c'.
Qed.

Lemma get_or_create_stream_counts refdes stream method w d w1 :
  _get_or_create_stream refdes stream method w = (d, w1) ->
  counts (store w1) = counts (store w).
Proof.
  intros Hcall.
  destruct (get_or_create_stream_cases _ _ _ _ _ _ Hcall)
    as [(_ & -> & _) | (_ & Hw & _)]; [reflexivity|].
  apply (wrapped_counts _ _ _ _ _ _ Hw).
Qed.

(** A coherent cache stays coherent, and the returned stream is the one the
    store resolves the triple to. *)
Lemma get_or_create_stream_coherent refdes stream method w d w1 :
  cache_coherent w ->
  _get_or_create_stream refdes stream method w = (d, w1) ->
  cache_coherent w1 /\ lookup_stream (store w1) refdes stream method = Some d.
Proof.
  intros Hco Hcall.
  destruct (get_or_create_stream_cases _ _ _ _ _ _ Hcall)
    as [(Hk & Hst & Hsub) | (Hk & Hw & Hsub)].
  - split.
    + intros r s m d0 Hin. rewrite Hst. apply Hco, Hsub, Hin.
    + rewrite Hst. apply Hco, lookup_In, Hk.
  - split.
    + intros r s m d0 Hin. destruct (Hsub _ Hin) as [Hold | [= -> -> -> ->]].
      * apply (wrapped_lookup_stable _ _ _ _ _ _ _ _ _ _ Hw), Hco, Hold.
      * apply (wrapped_lookup _ _ _ _ _ _ Hw).
    + apply (wrapped_lookup _ _ _ _ _ _ Hw).
Qed.

(** With a coherent cache, a triple the store already resolves costs no
    write. *)
Lemma get_or_create_stream_found refdes stream method w d :
  cache_coherent w ->
  lookup_stream (store w) refdes stream method = Some d ->
  exists c, _get_or_create_stream refdes stream method w
            = (d, mkWorld (store w) c)
            /\ cache_coherent (mkWorld (store w) c).
Proof.
  intros Hco Hd.
  destruct (_get_or_create_stream refdes stream method w) as [d1 w1] eqn:Hcall.
  destruct (get_or_create_stream_coherent _ _ _ _ _ _ Hco Hcall)
    as [Hco1 Hd1].
  assert (Hst : store w1 = store w).
  { destruct (get_or_create_stream_cases _ _ _ _ _ _ Hcall)
      as [(_ & Hst & _) | (_ & Hw & _)]; [exact Hst|].
    rewrite (wrapped_found _ _ _ _ _ Hd) in Hw. now injection Hw. }
  rewrite Hst in Hd1. rewrite Hd in Hd1. injection Hd1 as <-.
  exists (cache w1). destruct w1 as [st1 c1]; simpl in *. subst st1.
  now split.
Qed.



(** ** Bulk ingestion *)

Lemma order_by_timestamp_desc_nil (l : list Counts.t) :
  order_by_timestamp_desc l = [] -> l = [].
Proof.
  intros H. apply length_zero_iff_nil.
  now rewrite <- order_by_timestamp_desc_length, H.
Qed.

Lemma get_last_count_none st d :
  _get_last_count st d = None <-> filter (counts_of d) (counts st) = [].
Proof.
  unfold _get_last_count. split.
  - intros H. apply order_by_timestamp_desc_nil.
    now destruct (order_by_timestamp_desc _).
  - now intros ->.
Qed.

Lemma counts_of_mk d count timestamp :
  counts_of d (Counts.mk d count timestamp) = true.
Proof. apply Nat.eqb_refl. Qed.

(** The first sample of a stream is its newest one. *)
Lemma get_last_count_first st d c :
  _get_last_count st d = None ->
  counts_of d c = true ->
  _get_last_count (add_counts c st) d = Some c.
Proof.
  intros Hnone Hc. apply get_last_count_none in Hnone.
  unfold _get_last_count, add_counts. simpl.
  rewrite filter_app, Hnone. simpl. now rewrite Hc.
Qed.

(** One turn of the loop, once the timestamp converts and the stream is
    resolved. *)
Lemma ingest_row_resolved w subsite node sensor f4 f5 count ntp ts d w1 :
  Datetime.utcfromtimestamp (ntp - ntp_epoch_offset) = Ok ts ->
  _get_or_create_stream (PyStr.join "-" [subsite; node; sensor]) f5 f4 w
  = (d, w1) ->
  Cass.ingest_row w (subsite, node, sensor, f4, f5, count, ntp)
  = if match _get_last_count (store w1) d with
       | None => true
       | Some lc => negb (Counts.particle_count lc =? count)
       end
    then Ok (mkWorld (add_counts (Counts.mk d count ts) (store w1))
                     (cache w1))
    else Ok w1.
Proof.
  intros Hts Hres. unfold Cass.ingest_row. rewrite Hts. unfold rbind.
  now rewrite Hres.
Qed.

Lemma counts_from_rows_cons r rest w :
  Cass._counts_from_rows (r :: rest) w
  = rbind (Cass.ingest_row w r) (Cass._counts_from_rows rest).
Proof. reflexivity. Qed.

(** ** Timestamps *)

Lemma utcfromtimestamp_ok (t ts : Q) :
  Datetime.utcfromtimestamp t = Ok ts -> ts = t.
Proof.
  unfold Datetime.utcfromtimestamp.
  destruct (_ && _); [now intros [= <-] | discriminate].
Qed.

(** C8.  The offset between the two epochs is 2208988800 seconds; every
    sample the bulk ingestion appends carries the row's timestamp less that
    offset; and the source timestamp 2208988800 converts to
    1970-01-01T00:00:00. *)
Theorem epoch_conversion :
  ntp_epoch_offset = 2208988800%Q
  /\ (forall w subsite node sensor f4 f5 count ntp w',
         Cass.ingest_row w (subsite, node, sensor, f4, f5, count, ntp)
         = Ok w' ->
         counts (store w') = counts (store w)
         \/ exists d,
             counts (store w')
             = counts (store w) ++ [Counts.mk d count (ntp - 2208988800)%Q])
  /\ Datetime.utcfromtimestamp (2208988800 - ntp_epoch_offset)
     = Ok (Datetime.datetime 1970 1 1).
Proof.
  split; [reflexivity|]. split; [|reflexivity].
  intros w subsite node sensor f4 f5 count ntp w' Hrun.
  destruct (Datetime.utcfromtimestamp (ntp - ntp_epoch_offset))
    as [ts|e] eqn:Hts.
  2:{ unfold Cass.ingest_row in Hrun. rewrite Hts in Hrun. discriminate. }
  destruct (_get_or_create_stream (PyStr.join "-" [subsite; node; sensor])
              f5 f4 w) as [d w1] eqn:Hres.
  rewrite (ingest_row_resolved _ _ _ _ _ _ _ _ _ _ _ Hts Hres) in Hrun.
  pose proof (get_or_create_stream_counts _ _ _ _ _ _ Hres) as Hcounts.
  apply utcfromtimestamp_ok in Hts. rewrite ntp_epoch_offset_value in Hts.
  destruct (match _get_last_count (store w1) d with
            | None => true | Some lc => _ end);
    injection Hrun as <-; simpl.
  - right. exists d. now rewrite Hcounts, Hts.
  - now left.
Qed.

Lemma epoch_conversion_witness :
  exists w' d,
    Cass.ingest_row Example.empty (Example.row 100 2208988810%Q) = Ok w'
    /\ counts (store w') = [Counts.mk d 100 (2208988810 - 2208988800)%Q].
Proof.
  assert (Hrun : exists w',
             Cass.ingest_row Example.empty (Example.row 100 2208988810%Q)
             = Ok w' /\ List.length (counts (store w')) = 1%nat).
  { eexists. split; reflexivity. }
  destruct Hrun as (w' & Hrun & Hlen). exists w'.
  destruct (proj1 (proj2 epoch_conversion) _ _ _ _ _ _ _ _ _ Hrun)
    as [Hsame | (d & Happ)].
  - rewrite Hsame in Hlen. discriminate Hlen.
  - exists d. split; [exact Hrun | exact Happ].
Defined.

(** ** The order of the fields of a bulk row *)

(** C2.  The query lists the stream before the method, the loop of
    [_counts_from_rows] unpacks the method before the stream: for the
    metadata of stream [st1], method [telemetered], the identity is resolved
    for a stream named [telemetered] with the method [st1]. *)
Theorem counts_from_rows_swaps_stream_and_method :
  Cass._query_cassandra [Example.metadata 100 2208988810%Q]
  = [("A", "B", "C", "st1", "telemetered", 100, 2208988810%Q)]
  /\ exists w',
      Cass.gather_all [Example.metadata 100 2208988810%Q] Example.empty
      = Ok w'
      /\ expected_streams (store w')
         = [ExpectedStream.mk 1 "telemetered" "st1" None None None]
      /\ map (fun c => ExpectedStream.name
                         (DeployedStream.expected_stream (Counts.stream c)))
             (counts (store w'))
         = ["telemetered"].
Proof.
  split; [reflexivity|]. eexists. repeat split.
Qed.

(** ** The per-stream collector *)

Lemma matches_entry_of d e :
  Uframe.matches
    (ExpectedStream.name (DeployedStream.expected_stream d))
    (ExpectedStream.method (DeployedStream.expected_stream d)) e = true
  <-> entry_of d e.
Proof.
  unfold Uframe.matches, entry_of.
  now rewrite andb_true_iff, !String.eqb_eq.
Qed.

Lemma find_none_of {A : Type} (p : A -> bool) (l : list A) :
  (forall x, In x l -> p x = false) -> find p l = None.
Proof.
  induction l as [|x l IH]; simpl; intros H; [reflexivity|].
  rewrite (H x (or_introl eq_refl)). apply IH. intros y Hy. apply H. now right.
Qed.

Lemma find_first {A : Type} (p : A -> bool) (before after : list A) (x : A) :
  (forall y, In y before -> p y = false) -> p x = true ->
  find p (before ++ x :: after) = Some x.
Proof.
  intros Hbefore Hx. rewrite find_app, (find_none_of _ _ Hbefore). simpl.
  now rewrite Hx.
Qed.

(** [_query_api], once the reference designator parses and the request is
    answered. *)
Lemma query_api_answered self d subsite node sensor resp :
  parse_reference_designator
    (ReferenceDesignator.name (DeployedStream.ref_des d))
  = Ok (subsite, node, sensor) ->
  Uframe.requests_get self (Uframe.metadata_url self subsite node sensor)
  = Ok resp ->
  Uframe._query_api self d
  = if negb (Uframe.status_code resp =? 200) then Ok (0, 0%Q)
    else match find (Uframe.matches
                       (ExpectedStream.name (DeployedStream.expected_stream d))
                       (ExpectedStream.method
                          (DeployedStream.expected_stream d)))
                    (Uframe.json resp) with
         | Some e => Ok (Uframe.count e, Uframe.endTime e)
         | None => Ok (0, 0%Q)
         end.
Proof.
  intros Hparse Hget. unfold Uframe._query_api. rewrite Hparse. simpl.
  now rewrite Hget.
Qed.

(** The loop of [gather_all] appends one sample per stream, each holding
    what [_query_api] answered, as long as no call raises. *)
Lemma for_each_stream_ok self streams w :
  (forall d, In d streams -> exists o, Uframe._query_api self d = Ok o) ->
  exists w' news,
    Uframe.for_each_stream self streams w = Ok w'
    /\ counts (store w') = counts (store w) ++ news
    /\ Forall2 (observed self) streams news.
Proof.
  revert w. induction streams as [|d streams IH]; intros w Hok.
  - exists w, []. simpl. rewrite app_nil_r. repeat split. constructor.
  - destruct (Hok d (or_introl eq_refl)) as ([count ts] & Hd).
    set (c := Counts.mk d count ts).
    destruct (IH (mkWorld (add_counts c (store w)) (cache w)))
      as (w' & news & Hrun & Hcounts & Hobs).
    { intros d' Hd'. apply Hok. now right. }
    exists w', (c :: news). split; [|split].
    + simpl. unfold Uframe._create_counts. rewrite Hd. simpl. exact Hrun.
    + rewrite Hcounts. simpl. now rewrite <- app_assoc.
    + constructor; [|exact Hobs]. split; [reflexivity | exact Hd].
Qed.

(** C7.  Once the request for a stream is answered: a status other than 200
    gives the observation (0, 0); status 200 with no entry of the stream
    gives (0, 0) as well; status 200 with an entry of the stream gives the
    count and end time of the first such entry.  None of these raises, so a
    cycle in which every stream is answered one way or another appends one
    sample for every known stream. *)
Theorem query_api_fault_handling self d subsite node sensor resp :
  parse_reference_designator
    (ReferenceDesignator.name (DeployedStream.ref_des d))
  = Ok (subsite, node, sensor) ->
  Uframe.requests_get self (Uframe.metadata_url self subsite node sensor)
  = Ok resp ->
  (Uframe.status_code resp <> 200 -> Uframe._query_api self d = Ok (0, 0%Q))
  /\ (Uframe.status_code resp = 200 ->
      (forall e, In e (Uframe.json resp) -> ~ entry_of d e) ->
      Uframe._query_api self d = Ok (0, 0%Q))
  /\ (Uframe.status_code resp = 200 ->
      forall before e after,
        Uframe.json resp = before ++ e :: after ->
        (forall x, In x before -> ~ entry_of d x) ->
        entry_of d e ->
        Uframe._query_api self d = Ok (Uframe.count e, Uframe.endTime e))
  /\ (forall w,
         (forall d', In d' (deployed_streams (store w)) ->
                     exists o, Uframe._query_api self d' = Ok o) ->
         exists w' news,
           Uframe.gather_all self w = Ok w'
           /\ counts (store w') = counts (store w) ++ news
           /\ Forall2 (observed self) (deployed_streams (store w)) news).
Proof.
  intros Hparse Hget.
  pose proof (query_api_answered _ _ _ _ _ _ Hparse Hget) as Hq.
  assert (Hno : forall x, ~ entry_of d x ->
                Uframe.matches
                  (ExpectedStream.name (DeployedStream.expected_stream d))
                  (ExpectedStream.method (DeployedStream.expected_stream d))
                  x = false).
  { intros x Hx. apply not_true_iff_false. now rewrite matches_entry_of. }
  split; [|split; [|split]].
  - intros Hstatus. rewrite Hq.
    now destruct (Z.eqb_spec (Uframe.status_code resp) 200).
  - intros Hstatus Hnone. rewrite Hq, Hstatus. simpl.
    rewrite find_none_of; [reflexivity|].
    intros x Hx. apply Hno, Hnone, Hx.
  - intros Hstatus before e after Hjson Hbefore He.
    rewrite Hq, Hstatus, Hjson. simpl.
    rewrite (find_first _ before after e); [reflexivity| |].
    + intros y Hy. apply Hno, Hbefore, Hy.
    + now apply matches_entry_of.
  - intros w Hok. apply for_each_stream_ok, Hok.
Qed.

Lemma query_api_fault_handling_witness :
  Uframe._query_api (Example.service 404 []) (Example.ds None None)
  = Ok (0, 0%Q).
Proof.
  apply (proj1 (query_api_fault_handling
                  (Example.service 404 []) (Example.ds None None)
                  "A" "B" "C" (Uframe.mkResponse 404 [])
                  eq_refl eq_refl)).
  discriminate.
Defined.

(** ** Dedup, collector by collector *)

Lemma for_each_stream_length self streams w w' :
  Uframe.for_each_stream self streams w = Ok w' ->
  List.length (counts (store w'))
  = (List.length (counts (store w)) + List.length streams)%nat.
Proof.
  revert w. induction streams as [|d streams IH]; intros w; simpl.
  - intros [= <-]. lia.
  - unfold Uframe._create_counts.
    destruct (Uframe._query_api self d) as [[count ts]|e]; simpl;
      [|discriminate].
    intros Hrun. rewrite (IH _ Hrun). simpl. rewrite length_app. simpl. lia.
Qed.

(** With a cache that agrees with the store, a batch of rows that repeat
    the newest recorded count of their stream leaves the store as it
    was. *)
Lemma counts_from_rows_unchanged rows :
  forall w,
    cache_coherent w ->
    Forall (unchanged_row (store w)) rows ->
    exists w', Cass._counts_from_rows rows w = Ok w' /\ store w' = store w.
Proof.
  induction rows as [|r rows IH]; intros w Hco Hrows.
  - now exists w.
  - inversion Hrows as [|r' rows' Hr Hrest]; subst.
    destruct r as [[[[[[subsite node] sensor] f4] f5] count] ntp].
    destruct Hr as (ts & d & lc & Hts & Hd & Hlast & Hsame).
    destruct (get_or_create_stream_found _ _ _ _ _ Hco Hd)
      as (c & Hres & Hco').
    rewrite counts_from_rows_cons.
    rewrite (ingest_row_resolved _ _ _ _ _ _ _ _ _ _ _ Hts Hres).
    cbn [store]. rewrite Hlast, Hsame, Z.eqb_refl. simpl.
    destruct (IH (mkWorld (store w) c) Hco' Hrest) as (w' & Hrun & Hst).
    exists w'. split; [exact Hrun | exact Hst].
Qed.

(** ** Counts along the timestamps *)

Lemma insert_desc_In c x l :
  In x (insert_desc c l) <-> x = c \/ In x l.
Proof.
  induction l as [|y l IH]; simpl.
  - intuition congruence.
  - destruct (Qle_bool _ _); simpl; [intuition congruence|].
    rewrite IH. intuition congruence.
Qed.

Lemma order_by_timestamp_desc_In x l :
  In x (order_by_timestamp_desc l) <-> In x l.
Proof.
  induction l as [|c l IH]; simpl; [reflexivity|].
  rewrite insert_desc_In, IH. intuition congruence.
Qed.

(** The head of an insertion is at least as new as everything else in it,
    when that held of the list inserted into. *)
Lemma insert_desc_head c l h :
  (forall h0, hd_error l = Some h0 ->
              forall x, In x l -> (Counts.timestamp x <= Counts.timestamp h0)%Q)
  ->
  hd_error (insert_desc c l) = Some h ->
  forall x, In x (insert_desc c l) ->
            (Counts.timestamp x <= Counts.timestamp h)%Q.
Proof.
  destruct l as [|y l]; simpl.
  - intros _ [= <-] x [<- | []]. apply Qle_refl.
  - intros Hl. specialize (Hl y eq_refl).
    destruct (Qle_bool (Counts.timestamp y) (Counts.timestamp c)) eqn:Hle.
    + apply Qle_bool_iff in Hle. simpl. intros [= <-] x [<- | Hx].
      * apply Qle_refl.
      * apply Qle_trans with (Counts.timestamp y); [now apply Hl | exact Hle].
    + simpl. intros [= <-] x [<- | Hx].
      * apply Qle_refl.
      * apply insert_desc_In in Hx as [-> | Hx].
        -- apply Qlt_le_weak, Qnot_le_lt. intros Hc.
           apply Qle_bool_iff in Hc. congruence.
        -- apply Hl. now right.
Qed.

Lemma order_by_timestamp_desc_head l h :
  hd_error (order_by_timestamp_desc l) = Some h ->
  forall x, In x l -> (Counts.timestamp x <= Counts.timestamp h)%Q.
Proof.
  revert h. induction l as [|c l IH]; intros h; simpl; [discriminate|].
  intros Hh x Hx.
  apply (insert_desc_head c (order_by_timestamp_desc l) h).
  - intros h0 Hh0 y Hy. apply (IH h0 Hh0).
    now apply order_by_timestamp_desc_In.
  - exact Hh.
  - apply insert_desc_In. destruct Hx as [<- | Hx]; [now left|].
    right. now apply order_by_timestamp_desc_In.
Qed.

(** [_get_last_count] returns a sample of the stream that no sample of the
    stream is newer than. *)
Lemma get_last_count_newest st d lc :
  _get_last_count st d = Some lc ->
  In lc (counts st) /\ counts_of d lc = true
  /\ forall c, In c (counts st) -> counts_of d c = true ->
               (Counts.timestamp c <= Counts.timestamp lc)%Q.
Proof.
  unfold _get_last_count. intros Hlc.
  assert (Hin : In lc (filter (counts_of d) (counts st))).
  { apply order_by_timestamp_desc_In.
    destruct (order_by_timestamp_desc _) as [|h t]; [discriminate|].
    injection Hlc as <-. now left. }
  apply filter_In in Hin as [Hin Hof]. repeat split; try assumption.
  intros c Hc Hcof.
  apply (order_by_timestamp_desc_head _ _ Hlc). now apply filter_In.
Qed.

Lemma counts_of_same d a b :
  counts_of d a = true -> counts_of d b = true ->
  counts_of (Counts.stream a) b = true.
Proof.
  unfold counts_of. rewrite !Nat.eqb_eq. congruence.
Qed.

(** C9, as stated, fails: after a sample of 100 particles, a newer row with
    50 particles is appended, below the newest recorded count, and the
    counts of the stream decrease. *)
Lemma ingest_appends_lower_count :
  ~ (forall w r w',
        monotone_counts (counts (store w)) ->
        Cass.ingest_row w r = Ok w' ->
        monotone_counts (counts (store w')))
  /\ ~ (forall w r w' c lc,
           Cass.ingest_row w r = Ok w' ->
           counts (store w') = counts (store w) ++ [c] ->
           _get_last_count (store w) (Counts.stream c) = Some lc ->
           Counts.particle_count lc <= Counts.particle_count c).
Proof.
  split.
  - intros Hclaim.
    assert (Hmono : monotone_counts (counts (store Example.first_sample))).
    { intros a b [<- | []] [<- | []] _ _. apply Z.le_refl. }
    specialize (Hclaim Example.first_sample (Example.row 50 2208988820%Q) _
                       Hmono eq_refl).
    vm_compute in Hclaim.
    refine (Hclaim _ _ (or_introl eq_refl) (or_intror (or_introl eq_refl))
                   eq_refl _ eq_refl).
    discriminate.
  - intros Hclaim.
    refine (Hclaim Example.first_sample (Example.row 50 2208988820%Q) _ _ _
                   eq_refl eq_refl eq_refl eq_refl).
Qed.

(** * Further properties *)

(** ** Parsing reference designators *)

Section SplitMore.

Variable sep : ascii.

(** The first field of a split holds no separator, and the string is that
    field alone or the field, a separator and what the other fields are
    split from. *)
Lemma split_first (m : nat) (s field : string) (fields : list string) :
  PyStr.split sep (S m) s = field :: fields ->
  PyStr.lacks sep field = true
  /\ ((fields = [] /\ s = field)
      \/ exists rest, s = (field ++ String sep rest)%string
                      /\ fields = PyStr.split sep m rest).
Proof.
  revert field fields. induction s as [|c s IH]; intros field fields; simpl.
  - intros [= <- <-]. split; [reflexivity | now left].
  - destruct (Ascii.eqb c sep) eqn:Hc.
    + apply Ascii.eqb_eq in Hc as ->. intros [= <- <-].
      split; [reflexivity|]. right. now exists s.
    + destruct (PyStr.split sep (S m) s) as [|f0 fs0] eqn:Hs.
      { now apply split_not_nil in Hs. }
      intros [= <- <-]. destruct (IH f0 fs0 eq_refl) as [Hf0 Hrest].
      split; [simpl; now rewrite Hc, Hf0|].
      destruct Hrest as [[-> ->] | (rest & -> & ->)].
      * now left.
      * right. now exists rest.
Qed.

Lemma count_char_app (a b : string) :
  count_char sep (a ++ b)%string
  = (count_char sep a + count_char sep b)%nat.
Proof.
  induction a as [|c a IH]; simpl; [reflexivity|].
  destruct (Ascii.eqb c sep); simpl; now rewrite IH.
Qed.

Lemma count_char_lacks (s : string) :
  PyStr.lacks sep s = true <-> count_char sep s = O.
Proof.
  induction s as [|c s IH]; simpl; [tauto|].
  destruct (Ascii.eqb c sep); simpl; [split; discriminate | exact IH].
Qed.

(** A string with a separator starts with a field without one. *)
Lemma count_char_first (s : string) (n : nat) :
  count_char sep s = S n ->
  exists field rest,
    s = (field ++ String sep rest)%string
    /\ PyStr.lacks sep field = true
    /\ count_char sep rest = n.
Proof.
  induction s as [|c s IH]; simpl; [discriminate|].
  destruct (Ascii.eqb c sep) eqn:Hc.
  - apply Ascii.eqb_eq in Hc as ->. intros [= Hn].
    now exists EmptyString, s.
  - intros Hn. destruct (IH Hn) as (field & rest & -> & Hfield & Hrest).
    exists (String c field), rest. simpl. rewrite Hc, Hfield. now repeat split.
Qed.

End SplitMore.

(** The fields of a successful parse. *)
Lemma parse_fields ref_des subsite node sensor :
  parse_reference_designator ref_des = Ok (subsite, node, sensor) ->
  ref_des = (subsite ++ String dash (node ++ String dash sensor))%string
  /\ PyStr.lacks dash subsite = true
  /\ PyStr.lacks dash node = true.
Proof.
  unfold parse_reference_designator.
  destruct (PyStr.split dash 2 ref_des) as [|a [|b [|c [|x l]]]] eqn:Hsplit;
    try discriminate.
  intros [= <- <- <-].
  destruct (split_first dash 1 _ _ _ Hsplit) as [Ha [[Habs _] | (r1 & -> & H1)]];
    [discriminate|].
  symmetry in H1.
  destruct (split_first dash 0 _ _ _ H1) as [Hb [[Habs _] | (r2 & -> & H2)]];
    [discriminate|].
  rewrite split_zero in H2. injection H2 as <-.
  now repeat split.
Qed.

Lemma parse_of_fields subsite node sensor :
  PyStr.lacks dash subsite = true ->
  PyStr.lacks dash node = true ->
  parse_reference_designator
    (subsite ++ String dash (node ++ String dash sensor))%string
  = Ok (subsite, node, sensor).
Proof.
  intros Ha Hb. unfold parse_reference_designator.
  rewrite (split_field dash 1 subsite _ Ha), (split_field dash 0 node _ Hb).
  now rewrite split_zero.
Qed.

(** X1.  What [parse_reference_designator] returns joins back to the string
    it was given, and the subsite and the node it returns hold no dash. *)
Theorem parse_reference_designator_inverse ref_des subsite node sensor :
  parse_reference_designator ref_des = Ok (subsite, node, sensor) ->
  PyStr.join "-" [subsite; node; sensor] = ref_des
  /\ PyStr.lacks dash subsite = true
  /\ PyStr.lacks dash node = true.
Proof.
  intros Hp. destruct (parse_fields _ _ _ _ Hp) as (-> & Ha & Hb).
  now repeat split.
Qed.

Lemma parse_reference_designator_inverse_witness :
  PyStr.join "-" ["RS01SBPS"; "SF01A"; "2A-CTDPFA102"]
  = "RS01SBPS-SF01A-2A-CTDPFA102"
  /\ PyStr.lacks dash "RS01SBPS" = true
  /\ PyStr.lacks dash "SF01A" = true.
Proof.
  apply (parse_reference_designator_inverse
           "RS01SBPS-SF01A-2A-CTDPFA102" "RS01SBPS" "SF01A" "2A-CTDPFA102").
  reflexivity.
Defined.

(** A reference designator parses exactly when it has two dashes or more. *)
Lemma parse_ok_iff ref_des :
  (exists fields, parse_reference_designator ref_des = Ok fields)
  <-> (2 <= count_char dash ref_des)%nat.
Proof.
  split.
  - intros ([[a b] c] & Hp). destruct (parse_fields _ _ _ _ Hp) as (-> & _).
    rewrite count_char_app. simpl. rewrite count_char_app. simpl. lia.
  - intros Hn.
    destruct (count_char dash ref_des) as [|[|n]] eqn:Hcount; try lia.
    destruct (count_char_first dash _ _ Hcount) as (a & r1 & -> & Ha & H1).
    destruct (count_char_first dash _ _ H1) as (b & r2 & -> & Hb & _).
    exists (a, b, r2). now apply parse_of_fields.
Qed.

Lemma parse_raises_ValueError ref_des e :
  parse_reference_designator ref_des = Raise e -> e = ValueError.
Proof.
  unfold parse_reference_designator.
  destruct (PyStr.split dash 2 ref_des) as [|? [|? [|? [|? ?]]]];
    congruence.
Qed.

(** X2.  [parse_reference_designator] succeeds on the strings with at least
    two dashes and raises [ValueError] on all others. *)
Theorem parse_reference_designator_dashes ref_des :
  ((2 <= count_char dash ref_des)%nat ->
   exists subsite node sensor,
     parse_reference_designator ref_des = Ok (subsite, node, sensor))
  /\ ((count_char dash ref_des < 2)%nat ->
      parse_reference_designator ref_des = Raise ValueError).
Proof.
  split.
  - intros Hn. apply parse_ok_iff in Hn as ([[a b] c] & Hp).
    now exists a, b, c.
  - intros Hn.
    destruct (parse_reference_designator ref_des) as [fields|e] eqn:Hp.
    + assert (Hok : (2 <= count_char dash ref_des)%nat)
        by (apply parse_ok_iff; now exists fields).
      lia.
    + now rewrite (parse_raises_ValueError _ _ Hp).
Qed.

Lemma parse_reference_designator_dashes_witness :
  (exists subsite node sensor,
      parse_reference_designator "A-B-C-D" = Ok (subsite, node, sensor))
  /\ parse_reference_designator "A-B" = Raise ValueError.
Proof.
  split.
  - apply (proj1 (parse_reference_designator_dashes "A-B-C-D")).
    simpl. lia.
  - apply (proj2 (parse_reference_designator_dashes "A-B")).
    simpl. lia.
Defined.

(** ** Newest samples *)

Lemma insert_desc_perm c l : Permutation.Permutation (insert_desc c l) (c :: l).
Proof.
  induction l as [|x l IH]; simpl; [apply Permutation.Permutation_refl|].
  destruct (Qle_bool _ _); [apply Permutation.Permutation_refl|].
  eapply Permutation.perm_trans;
    [apply Permutation.perm_skip, IH | apply Permutation.perm_swap].
Qed.

Lemma order_by_timestamp_desc_perm l :
  Permutation.Permutation (order_by_timestamp_desc l) l.
Proof.
  induction l as [|c l IH]; simpl; [constructor|].
  eapply Permutation.perm_trans;
    [apply insert_desc_perm | now apply Permutation.perm_skip].
Qed.

(** Newest first: every element is at least as new as all that follow. *)
Lemma insert_desc_sorted c l :
  Sorted.StronglySorted
    (fun a b => (Counts.timestamp b <= Counts.timestamp a)%Q) l ->
  Sorted.StronglySorted
    (fun a b => (Counts.timestamp b <= Counts.timestamp a)%Q)
    (insert_desc c l).
Proof.
  induction 1 as [|x l Hl IH Hx]; simpl.
  - constructor; constructor.
  - destruct (Qle_bool (Counts.timestamp x) (Counts.timestamp c)) eqn:Hle.
    + apply Qle_bool_iff in Hle. constructor.
      * now constructor.
      * constructor; [exact Hle|].
        rewrite Forall_forall in *. intros y Hy.
        apply Qle_trans with (Counts.timestamp x); auto.
    + constructor; [exact IH|].
      rewrite Forall_forall in *. intros y Hy.
      apply insert_desc_In in Hy as [-> | Hy]; [|now apply Hx].
      apply Qlt_le_weak, Qnot_le_lt. intros Hc.
      apply Qle_bool_iff in Hc. congruence.
Qed.

Lemma order_by_timestamp_desc_sorted l :
  Sorted.StronglySorted
    (fun a b => (Counts.timestamp b <= Counts.timestamp a)%Q)
    (order_by_timestamp_desc l).
Proof.
  induction l as [|c l IH]; simpl; [constructor | now apply insert_desc_sorted].
Qed.

(** X3.  [_get_last_count] returns [None] exactly for a stream without
    samples; otherwise it returns a sample of that stream, and no sample of
    the stream has a later timestamp. *)
Theorem get_last_count_is_newest st d :
  (_get_last_count st d = None <-> samples_of st d = [])
  /\ (forall lc,
         _get_last_count st d = Some lc ->
         In lc (samples_of st d)
         /\ forall c, In c (samples_of st d) ->
                      (Counts.timestamp c <= Counts.timestamp lc)%Q).
Proof.
  split; [apply get_last_count_none|].
  intros lc Hlc.
  destruct (get_last_count_newest _ _ _ Hlc) as (Hin & Hof & Hmax).
  split.
  - now apply filter_In.
  - intros c Hc. apply filter_In in Hc as [Hc Hcof]. now apply Hmax.
Qed.

Lemma get_last_count_is_newest_witness :
  In (Counts.mk (Example.ds None None) 7 20%Q)
     (samples_of (Example.store_of (Example.ds None None)
                                   [(5, 10%Q); (7, 20%Q); (6, 15%Q)])
                 (Example.ds None None))
  /\ forall c,
      In c (samples_of (Example.store_of (Example.ds None None)
                                         [(5, 10%Q); (7, 20%Q); (6, 15%Q)])
                       (Example.ds None None)) ->
      (Counts.timestamp c <= 20)%Q.
Proof.
  apply (proj2 (get_last_count_is_newest
                  (Example.store_of (Example.ds None None)
                                    [(5, 10%Q); (7, 20%Q); (6, 15%Q)])
                  (Example.ds None None))
               (Counts.mk (Example.ds None None) 7 20%Q)).
  reflexivity.
Defined.

(** X4.  With two samples or more, [last_rate] is [rate] of the newest
    sample against the newest of the others. *)
Theorem last_rate_two_newest st d :
  (2 <= List.length (samples_of st d))%nat ->
  exists c0 c1 others,
    Permutation.Permutation (c0 :: c1 :: others) (samples_of st d)
    /\ last_rate st d = Counts.rate c0 c1
    /\ (Counts.timestamp c1 <= Counts.timestamp c0)%Q
    /\ forall c, In c others ->
                 (Counts.timestamp c <= Counts.timestamp c1)%Q.
Proof.
  intros Hlen. unfold last_rate. fold (samples_of st d).
  pose proof (order_by_timestamp_desc_perm (samples_of st d)) as Hperm.
  pose proof (order_by_timestamp_desc_sorted (samples_of st d)) as Hsorted.
  rewrite <- (order_by_timestamp_desc_length (samples_of st d)) in Hlen.
  destruct (order_by_timestamp_desc (samples_of st d)) as [|c0 [|c1 others]];
    simpl in Hlen; try lia.
  exists c0, c1, others. split; [exact Hperm|]. split; [reflexivity|].
  inversion Hsorted as [|? ? Htail Hhead]; subst.
  inversion Htail as [|? ? _ Hsecond]; subst.
  split.
  - now inversion Hhead.
  - intros c Hc. rewrite Forall_forall in Hsecond. now apply Hsecond.
Qed.

Lemma last_rate_two_newest_witness :
  exists c0 c1 others,
    Permutation.Permutation
      (c0 :: c1 :: others)
      (samples_of (Example.store_with_rate Example.ds_10_5 8)
                  Example.ds_10_5)
    /\ last_rate (Example.store_with_rate Example.ds_10_5 8) Example.ds_10_5
       = Counts.rate c0 c1
    /\ (Counts.timestamp c1 <= Counts.timestamp c0)%Q
    /\ forall c, In c others ->
                 (Counts.timestamp c <= Counts.timestamp c1)%Q.
Proof.
  apply (last_rate_two_newest
           (Example.store_with_rate Example.ds_10_5 8) Example.ds_10_5).
  simpl. lia.
Defined.

(** ** One stream does not disturb another *)

Lemma samples_of_add_counts st d c :
  samples_of (add_counts c st) d
  = samples_of st d ++ (if counts_of d c then [c] else []).
Proof. unfold samples_of, add_counts. simpl. now rewrite filter_app. Qed.

(** What the classifier reads of a store is the samples of the stream. *)
Lemma status_samples st st' d :
  samples_of st d = samples_of st' d ->
  _get_last_count st d = _get_last_count st' d
  /\ last_rate st d = last_rate st' d
  /\ status st d = status st' d.
Proof.
  intros Hs.
  assert (Hrate : last_rate st d = last_rate st' d).
  { unfold last_rate. fold (samples_of st d) (samples_of st' d).
    now rewrite Hs. }
  split; [|split; [exact Hrate|]].
  - unfold _get_last_count. fold (samples_of st d) (samples_of st' d).
    now rewrite Hs.
  - rewrite !status_cases. cbv zeta. now rewrite Hrate.
Qed.

(** The two ways one turn of the bulk loop ends. *)
Lemma ingest_row_outcome w subsite node sensor f4 f5 count ntp w' :
  Cass.ingest_row w (subsite, node, sensor, f4, f5, count, ntp) = Ok w' ->
  exists ts d w1,
    Datetime.utcfromtimestamp (ntp - ntp_epoch_offset) = Ok ts
    /\ _get_or_create_stream (PyStr.join "-" [subsite; node; sensor]) f5 f4 w
       = (d, w1)
    /\ ((w' = w1
         /\ exists lc, _get_last_count (store w1) d = Some lc
                       /\ Counts.particle_count lc = count)
        \/ w' = mkWorld (add_counts (Counts.mk d count ts) (store w1))
                        (cache w1)).
Proof.
  intros Hrun.
  destruct (Datetime.utcfromtimestamp (ntp - ntp_epoch_offset))
    as [ts|e] eqn:Hts.
  2:{ unfold Cass.ingest_row in Hrun. rewrite Hts in Hrun. discriminate. }
  destruct (_get_or_create_stream (PyStr.join "-" [subsite; node; sensor])
              f5 f4 w) as [d w1] eqn:Hres.
  rewrite (ingest_row_resolved _ _ _ _ _ _ _ _ _ _ _ Hts Hres) in Hrun.
  exists ts, d, w1. split; [reflexivity|]. split; [reflexivity|].
  destruct (_get_last_count (store w1) d) as [lc|] eqn:Hlast.
  - destruct (Z.eqb_spec (Counts.particle_count lc) count) as [Heq | Hne];
      simpl in Hrun; injection Hrun as <-.
    + left. split; [reflexivity|]. now exists lc.
    + now right.
  - injection Hrun as <-. now right.
Qed.

(** X5.  A bulk row changes nothing for the streams it does not resolve to:
    their samples, their newest sample, their rate and their status stay as
    they were. *)
Theorem ingest_row_other_stream
  w subsite node sensor f4 f5 count ntp w' d' w1 d :
  Cass.ingest_row w (subsite, node, sensor, f4, f5, count, ntp) = Ok w' ->
  _get_or_create_stream (PyStr.join "-" [subsite; node; sensor]) f5 f4 w
  = (d', w1) ->
  DeployedStream.id d' <> DeployedStream.id d ->
  samples_of (store w') d = samples_of (store w) d
  /\ _get_last_count (store w') d = _get_last_count (store w) d
  /\ last_rate (store w') d = last_rate (store w) d
  /\ status (store w') d = status (store w) d.
Proof.
  intros Hrun Hres Hother.
  assert (Hsamples : samples_of (store w') d = samples_of (store w) d).
  { destruct (ingest_row_outcome _ _ _ _ _ _ _ _ _ Hrun)
      as (ts & d0 & w0 & _ & Hres0 & Hend).
    rewrite Hres in Hres0. injection Hres0 as <- <-.
    pose proof (get_or_create_stream_counts _ _ _ _ _ _ Hres) as Hcounts.
    assert (Hw1 : samples_of (store w1) d = samples_of (store w) d)
      by (unfold samples_of; now rewrite Hcounts).
    destruct Hend as [[-> _] | ->]; [exact Hw1|].
    cbn [store]. rewrite samples_of_add_counts, Hw1.
    unfold counts_of. simpl.
    destruct (Nat.eqb_spec (DeployedStream.id d') (DeployedStream.id d));
      [contradiction | apply app_nil_r]. }
  split; [exact Hsamples | now apply status_samples].
Qed.

Lemma ingest_row_other_stream_witness :
  status (store (Example.after [Example.row 100 2208988810%Q]))
         (DeployedStream.mk 7 Example.rd (Example.es None None))
  = status (store Example.empty)
           (DeployedStream.mk 7 Example.rd (Example.es None None)).
Proof.
  refine (proj2 (proj2 (proj2
            (ingest_row_other_stream
               Example.empty "A" "B" "C" "st1" "telemetered" 100
               2208988810%Q
               (Example.after [Example.row 100 2208988810%Q])
               (fst Example.resolved_by_ingest)
               (snd Example.resolved_by_ingest)
               (DeployedStream.mk 7 Example.rd (Example.es None None))
               eq_refl (surjective_pairing _) _)))).
  discriminate.
Defined.

(** ** What resolution writes *)

Lemma extends_by_refl {A : Type} (n : nat) (l : list A) : extends_by n l l.
Proof. exists []. rewrite app_nil_r. split; [reflexivity | simpl; lia]. Qed.

Lemma extends_by_one {A : Type} (l : list A) (x : A) :
  extends_by 1 l (l ++ [x]).
Proof. exists [x]. split; [reflexivity | simpl; lia]. Qed.

Lemma extends_by_trans {A : Type} (n m : nat) (l0 l1 l2 : list A) :
  extends_by n l0 l1 -> extends_by m l1 l2 -> extends_by (n + m) l0 l2.
Proof.
  intros (a & -> & Ha) (b & -> & Hb). exists (a ++ b).
  rewrite app_assoc, length_app. split; [reflexivity | lia].
Qed.

Lemma wrapped_extends refdes stream method st d st' :
  _get_or_create_stream__wrapped refdes stream method st = (d, st') ->
  extends_by 1 (reference_designators st) (reference_designators st')
  /\ extends_by 1 (expected_streams st) (expected_streams st')
  /\ extends_by 1 (deployed_streams st) (deployed_streams st').
Proof.
  intros Hcall.
  wrapped_cases Hcall; simpl;
    repeat split; first [apply extends_by_refl | apply extends_by_one].
Qed.

(** X6.  A call of [_get_or_create_stream] never changes or removes a stored
    row: each identity table is the old one with at most one row appended,
    and the samples are untouched. *)
Theorem get_or_create_stream_appends refdes stream method w d w1 :
  _get_or_create_stream refdes stream method w = (d, w1) ->
  extends_by 1 (reference_designators (store w))
             (reference_designators (store w1))
  /\ extends_by 1 (expected_streams (store w)) (expected_streams (store w1))
  /\ extends_by 1 (deployed_streams (store w)) (deployed_streams (store w1))
  /\ counts (store w1) = counts (store w).
Proof.
  intros Hcall.
  destruct (get_or_create_stream_cases _ _ _ _ _ _ Hcall)
    as [(_ & -> & _) | (_ & Hw & _)].
  - repeat split; apply extends_by_refl.
  - destruct (wrapped_extends _ _ _ _ _ _ Hw) as (Hr & He & Hd).
    repeat split; try assumption. apply (wrapped_counts _ _ _ _ _ _ Hw).
Qed.

Lemma get_or_create_stream_appends_witness :
  extends_by 1 (reference_designators (store Example.empty))
             (reference_designators (store (snd Example.resolved)))
  /\ extends_by 1 (expected_streams (store Example.empty))
                (expected_streams (store (snd Example.resolved)))
  /\ extends_by 1 (deployed_streams (store Example.empty))
                (deployed_streams (store (snd Example.resolved)))
  /\ counts (store (snd Example.resolved)) = counts (store Example.empty).
Proof.
  apply (get_or_create_stream_appends
           "A-B-C" "st1" "telemetered" Example.empty
           (fst Example.resolved) (snd Example.resolved)).
  apply surjective_pairing.
Defined.

Lemma lookup_stream_linked st refdes stream method d :
  lookup_stream st refdes stream method = Some d ->
  In d (deployed_streams st)
  /\ exists r e,
      In r (reference_designators st)
      /\ ReferenceDesignator.name r = refdes
      /\ In e (expected_streams st)
      /\ ExpectedStream.name e = stream
      /\ ExpectedStream.method e = method
      /\ ReferenceDesignator.id (DeployedStream.ref_des d)
         = ReferenceDesignator.id r
      /\ ExpectedStream.id (DeployedStream.expected_stream d)
         = ExpectedStream.id e.
Proof.
  unfold lookup_stream.
  destruct (find (refdes_named refdes) _) as [r|] eqn:Hr; [|discriminate].
  destruct (find (expected_named stream method) _) as [e|] eqn:He;
    [|discriminate].
  intros Hd.
  apply find_some in Hr as [Hr Hrn], He as [He Hen], Hd as [Hd Hdn].
  split; [exact Hd|]. exists r, e.
  unfold refdes_named in Hrn. apply String.eqb_eq in Hrn.
  unfold expected_named in Hen.
  apply andb_true_iff in Hen as [Hn Hm].
  apply String.eqb_eq in Hn, Hm.
  unfold deployed_of in Hdn. apply andb_true_iff in Hdn as [Hdr Hde].
  apply Nat.eqb_eq in Hdr, Hde.
  now repeat split.
Qed.

(** X7.  With a cache that agrees with the store, the stream returned for a
    triple is a stored deployed stream that refers, by primary key, to a
    stored reference designator of that name and a stored expected stream
    of that name and method. *)
Theorem get_or_create_stream_linked refdes stream method w d w1 :
  cache_coherent w ->
  _get_or_create_stream refdes stream method w = (d, w1) ->
  In d (deployed_streams (store w1))
  /\ exists r e,
      In r (reference_designators (store w1))
      /\ ReferenceDesignator.name r = refdes
      /\ In e (expected_streams (store w1))
      /\ ExpectedStream.name e = stream
      /\ ExpectedStream.method e = method
      /\ ReferenceDesignator.id (DeployedStream.ref_des d)
         = ReferenceDesignator.id r
      /\ ExpectedStream.id (DeployedStream.expected_stream d)
         = ExpectedStream.id e.
Proof.
  intros Hco Hcall.
  destruct (get_or_create_stream_coherent _ _ _ _ _ _ Hco Hcall) as [_ Hd].
  now apply lookup_stream_linked.
Qed.

Lemma cache_coherent_empty st : cache_coherent (mkWorld st []).
Proof. intros r s m d []. Qed.

Lemma get_or_create_stream_linked_witness :
  In (fst Example.resolved) (deployed_streams (store (snd Example.resolved)))
  /\ exists r e,
      In r (reference_designators (store (snd Example.resolved)))
      /\ ReferenceDesignator.name r = "A-B-C"
      /\ In e (expected_streams (store (snd Example.resolved)))
      /\ ExpectedStream.name e = "st1"
      /\ ExpectedStream.method e = "telemetered"
      /\ ReferenceDesignator.id (DeployedStream.ref_des (fst Example.resolved))
         = ReferenceDesignator.id r
      /\ ExpectedStream.id
           (DeployedStream.expected_stream (fst Example.resolved))
         = ExpectedStream.id e.
Proof.
  apply (get_or_create_stream_linked
           "A-B-C" "st1" "telemetered" Example.empty
           (fst Example.resolved) (snd Example.resolved)).
  - apply cache_coherent_empty.
  - apply surjective_pairing.
Defined.

(** ** The size of the cache *)

Lemma remove_length k c v :
  LRUCache.lookup k c = Some v ->
  (List.length (LRUCache.remove k c) < List.length c)%nat.
Proof.
  induction c as [|[k' v'] c IH]; simpl; [discriminate|].
  destruct (LRUCache.key_eqb k' k) eqn:Hk; simpl.
  - intros _. unfold LRUCache.remove.
    pose proof (filter_length_le
                  (fun kv => negb (LRUCache.key_eqb (fst kv) k)) c).
    lia.
  - intros Hc. specialize (IH Hc). lia.
Qed.

Lemma lookup_none_keys k c :
  LRUCache.lookup k c = None -> ~ In k (map fst c).
Proof.
  induction c as [|[k' v'] c IH]; simpl; [tauto|].
  destruct (LRUCache.key_eqb k' k) eqn:Hk; [discriminate|].
  intros Hc [-> | Hin]; [|now apply IH].
  rewrite key_eqb_refl in Hk. discriminate.
Qed.

Lemma NoDup_map_filter {A B : Type} (f : A -> B) (p : A -> bool) l :
  NoDup (map f l) -> NoDup (map f (filter p l)).
Proof.
  induction l as [|x l IH]; simpl; [trivial|].
  intros Hnd. inversion Hnd as [|? ? Hx Hl]; subst.
  destruct (p x); simpl; [|now apply IH].
  constructor; [|now apply IH].
  intros Hin. apply Hx. apply in_map_iff in Hin as (y & Hy & Hin).
  apply filter_In in Hin as [Hin _]. apply in_map_iff. now exists y.
Qed.

Lemma NoDup_map_skipn {A B : Type} (f : A -> B) n (l : list A) :
  NoDup (map f l) -> NoDup (map f (skipn n l)).
Proof.
  revert l. induction n as [|n IH]; intros [|x l]; simpl; trivial.
  intros Hnd. inversion Hnd; subst. now apply IH.
Qed.

(** X8.  The cache stays within its 3000 entries and holds no key twice:
    both are kept by every call of [_get_or_create_stream]. *)
Theorem get_or_create_stream_cache_bound refdes stream method w d w1 :
  _get_or_create_stream refdes stream method w = (d, w1) ->
  ((List.length (cache w) <= LRUCache.maxsize)%nat ->
   (List.length (cache w1) <= LRUCache.maxsize)%nat)
  /\ (NoDup (map fst (cache w)) -> NoDup (map fst (cache w1))).
Proof.
  unfold _get_or_create_stream.
  destruct (LRUCache.lookup (refdes, stream, method) (cache w)) as [v|] eqn:Hk.
  - unfold LRUCache.getitem. rewrite Hk. intros [= <- <-]. simpl. split.
    + intros Hlen. rewrite length_app. simpl.
      pose proof (remove_length _ _ _ Hk). lia.
    + intros Hnd. rewrite map_app. apply NoDup_snoc.
      * now apply NoDup_map_filter.
      * apply lookup_none_keys, lookup_remove.
  - rewrite (lookup_getitem_none _ _ Hk).
    destruct (_get_or_create_stream__wrapped _ _ _ _) as [v st].
    intros [= <- <-]. simpl. unfold LRUCache.setitem. rewrite Hk. split.
    + intros Hlen. rewrite length_app, length_skipn. simpl.
      unfold LRUCache.maxsize in *. lia.
    + intros Hnd. rewrite map_app. apply NoDup_snoc.
      * now apply NoDup_map_skipn.
      * apply lookup_none_keys, lookup_skipn_none, Hk.
Qed.

Lemma get_or_create_stream_cache_bound_witness :
  (List.length (cache (snd Example.resolved)) <= LRUCache.maxsize)%nat
  /\ NoDup (map fst (cache (snd Example.resolved))).
Proof.
  destruct (get_or_create_stream_cache_bound
              "A-B-C" "st1" "telemetered" Example.empty
              (fst Example.resolved) (snd Example.resolved)
              (surjective_pairing _)) as [Hlen Hnd].
  split.
  - apply Hlen. apply Nat.le_0_l.
  - apply Hnd. constructor.
Defined.

(** ** A whole batch of bulk rows *)

Lemma get_or_create_stream_unique refdes stream method w d w1 :
  _get_or_create_stream refdes stream method w = (d, w1) ->
  unique_identities (store w) -> unique_identities (store w1).
Proof.
  intros Hcall Huniq.
  destruct (get_or_create_stream_cases _ _ _ _ _ _ Hcall)
    as [(_ & -> & _) | (_ & Hw & _)]; [exact Huniq|].
  apply (wrapped_unique _ _ _ _ _ _ Hw Huniq).
Qed.

Lemma ingest_row_invariants w r w' :
  Cass.ingest_row w r = Ok w' ->
  (cache_coherent w -> cache_coherent w')
  /\ (unique_identities (store w) -> unique_identities (store w')).
Proof.
  destruct r as [[[[[[subsite node] sensor] f4] f5] count] ntp].
  intros Hrun.
  destruct (ingest_row_outcome _ _ _ _ _ _ _ _ _ Hrun)
    as (ts & d & w1 & _ & Hres & Hend).
  split.
  - intros Hco.
    destruct (get_or_create_stream_coherent _ _ _ _ _ _ Hco Hres) as [Hco1 _].
    destruct Hend as [[-> _] | ->]; [exact Hco1|].
    intros r s m d0 Hin. apply (Hco1 r s m d0 Hin).
  - intros Huniq.
    pose proof (get_or_create_stream_unique _ _ _ _ _ _ Hres Huniq) as Hu1.
    destruct Hend as [[-> _] | ->]; exact Hu1.
Qed.

(** X9.  A batch that [_counts_from_rows] completes keeps the cache in
    agreement with the store and keeps the uniqueness of names, of
    (name, method) pairs and of (reference designator, expected stream)
    pairs. *)
Theorem counts_from_rows_invariants rows w w' :
  Cass._counts_from_rows rows w = Ok w' ->
  (cache_coherent w -> cache_coherent w')
  /\ (unique_identities (store w) -> unique_identities (store w')).
Proof.
  revert w. induction rows as [|r rows IH]; intros w.
  - intros [= <-]. tauto.
  - rewrite counts_from_rows_cons.
    destruct (Cass.ingest_row w r) as [w1|e] eqn:Hrow; [|discriminate].
    simpl. intros Hrest.
    destruct (ingest_row_invariants _ _ _ Hrow) as [Hc1 Hu1].
    destruct (IH _ Hrest) as [Hc Hu]. split; auto.
Qed.

Lemma counts_from_rows_invariants_witness :
  cache_coherent (Example.after [Example.row 100 2208988810%Q;
                                 Example.row 110 2208988820%Q])
  /\ unique_identities
       (store (Example.after [Example.row 100 2208988810%Q;
                              Example.row 110 2208988820%Q])).
Proof.
  destruct (counts_from_rows_invariants
              [Example.row 100 2208988810%Q; Example.row 110 2208988820%Q]
              Example.empty
              (Example.after [Example.row 100 2208988810%Q;
                              Example.row 110 2208988820%Q])
              eq_refl) as [Hco Huniq].
  split.
  - apply Hco, cache_coherent_empty.
  - apply Huniq. repeat split; constructor.
Defined.

Lemma ingest_row_extends w r w' :
  Cass.ingest_row w r = Ok w' ->
  extends_by 1 (reference_designators (store w))
             (reference_designators (store w'))
  /\ extends_by 1 (expected_streams (store w)) (expected_streams (store w'))
  /\ extends_by 1 (deployed_streams (store w)) (deployed_streams (store w'))
  /\ extends_by 1 (counts (store w)) (counts (store w')).
Proof.
  destruct r as [[[[[[subsite node] sensor] f4] f5] count] ntp].
  intros Hrun.
  destruct (ingest_row_outcome _ _ _ _ _ _ _ _ _ Hrun)
    as (ts & d & w1 & _ & Hres & Hend).
  destruct (get_or_create_stream_cases _ _ _ _ _ _ Hres)
    as [(_ & Hst & _) | (_ & Hw & _)].
  - destruct Hend as [[-> _] | ->]; cbn [store add_counts
      reference_designators expected_streams deployed_streams counts];
      rewrite Hst; repeat split;
      first [apply extends_by_refl | apply extends_by_one].
  - destruct (wrapped_extends _ _ _ _ _ _ Hw) as (Hr & He & Hd).
    pose proof (wrapped_counts _ _ _ _ _ _ Hw) as Hc.
    destruct Hend as [[-> _] | ->]; cbn [store add_counts
      reference_designators expected_streams deployed_streams counts];
      repeat split; try assumption; rewrite Hc;
      first [apply extends_by_refl | apply extends_by_one].
Qed.

(** X11.  A completed batch only appends: each of the four tables is the
    old one followed by new rows, at most one for every row of the batch. *)
Theorem counts_from_rows_appends rows w w' :
  Cass._counts_from_rows rows w = Ok w' ->
  extends_by (List.length rows) (reference_designators (store w))
             (reference_designators (store w'))
  /\ extends_by (List.length rows) (expected_streams (store w))
                (expected_streams (store w'))
  /\ extends_by (List.length rows) (deployed_streams (store w))
                (deployed_streams (store w'))
  /\ extends_by (List.length rows) (counts (store w)) (counts (store w')).
Proof.
  revert w. induction rows as [|r rows IH]; intros w.
  - intros [= <-]. repeat split; apply extends_by_refl.
  - rewrite counts_from_rows_cons.
    destruct (Cass.ingest_row w r) as [w1|e] eqn:Hrow; [|discriminate].
    simpl rbind. intros Hrest.
    destruct (ingest_row_extends _ _ _ Hrow) as (Hr1 & He1 & Hd1 & Hc1).
    destruct (IH _ Hrest) as (Hr & He & Hd & Hc).
    change (List.length (r :: rows)) with (1 + List.length rows)%nat.
    repeat split; eapply extends_by_trans; eassumption.
Qed.

Lemma counts_from_rows_appends_witness :
  extends_by 2 (counts (store Example.empty))
             (counts (store (Example.after
                               [Example.row 100 2208988810%Q;
                                Example.row 100 2208988820%Q]))).
Proof.
  apply (counts_from_rows_appends
           [Example.row 100 2208988810%Q; Example.row 100 2208988820%Q]
           Example.empty
           (Example.after [Example.row 100 2208988810%Q;
                           Example.row 100 2208988820%Q])
           eq_refl).
Defined.

(** X12.  After a bulk row is taken, the stream it resolves to has a sample
    with the row's count, and so has a newest sample. *)
Theorem ingest_row_records_count
  w subsite node sensor f4 f5 count ntp w' d w1 :
  Cass.ingest_row w (subsite, node, sensor, f4, f5, count, ntp) = Ok w' ->
  _get_or_create_stream (PyStr.join "-" [subsite; node; sensor]) f5 f4 w
  = (d, w1) ->
  (exists c, In c (samples_of (store w') d)
             /\ Counts.particle_count c = count)
  /\ _get_last_count (store w') d <> None.
Proof.
  intros Hrun Hres.
  assert (Hc : exists c, In c (samples_of (store w') d)
                         /\ Counts.particle_count c = count).
  { destruct (ingest_row_outcome _ _ _ _ _ _ _ _ _ Hrun)
      as (ts & d0 & w0 & _ & Hres0 & Hend).
    rewrite Hres in Hres0. injection Hres0 as <- <-.
    destruct Hend as [[-> (lc & Hlc & Hsame)] | ->].
    - exists lc. split; [|exact Hsame].
      destruct (get_last_count_newest _ _ _ Hlc) as (Hin & Hof & _).
      now apply filter_In.
    - exists (Counts.mk d count ts). split; [|reflexivity].
      cbn [store]. rewrite samples_of_add_counts, counts_of_mk.
      apply in_or_app. right. now left. }
  split; [exact Hc|].
  destruct Hc as (c & Hin & _). intros Hnone.
  apply get_last_count_none in Hnone. unfold samples_of in Hin.
  rewrite Hnone in Hin. destruct Hin.
Qed.

Lemma ingest_row_records_count_witness :
  (exists c,
      In c (samples_of (store (Example.after [Example.row 100 2208988810%Q]))
                       (fst Example.resolved_by_ingest))
      /\ Counts.particle_count c = 100)
  /\ _get_last_count (store (Example.after [Example.row 100 2208988810%Q]))
                     (fst Example.resolved_by_ingest) <> None.
Proof.
  apply (ingest_row_records_count
           Example.empty "A" "B" "C" "st1" "telemetered" 100 2208988810%Q
           (Example.after [Example.row 100 2208988810%Q])
           (fst Example.resolved_by_ingest) (snd Example.resolved_by_ingest)
           eq_refl (surjective_pairing _)).
Defined.

(** ** A cycle of the per-stream collector *)

Lemma for_each_stream_writes self streams w w' :
  Uframe.for_each_stream self streams w = Ok w' ->
  reference_designators (store w') = reference_designators (store w)
  /\ expected_streams (store w') = expected_streams (store w)
  /\ deployed_streams (store w') = deployed_streams (store w)
  /\ cache w' = cache w
  /\ exists news,
      counts (store w') = counts (store w) ++ news
      /\ map Counts.stream news = streams.
Proof.
  revert w. induction streams as [|d streams IH]; intros w; simpl.
  - intros [= <-]. repeat split. exists []. now rewrite app_nil_r.
  - unfold Uframe._create_counts.
    destruct (Uframe._query_api self d) as [[count ts]|e]; simpl;
      [|discriminate].
    intros Hrun.
    destruct (IH _ Hrun) as (Hr & He & Hd & Hc & news & Hcounts & Hnews).
    simpl in *. repeat split; try assumption.
    exists (Counts.mk d count ts :: news). split.
    + rewrite Hcounts. now rewrite <- app_assoc.
    + simpl. now rewrite Hnews.
Qed.

(** X13.  A completed cycle of [UframeStatusMonitor.gather_all] writes
    samples only: the three identity tables and the cache are as before, and
    the new samples are one for every stored deployed stream, in the order
    of the table. *)
Theorem uframe_gather_all_writes self w w' :
  Uframe.gather_all self w = Ok w' ->
  reference_designators (store w') = reference_designators (store w)
  /\ expected_streams (store w') = expected_streams (store w)
  /\ deployed_streams (store w') = deployed_streams (store w)
  /\ cache w' = cache w
  /\ exists news,
      counts (store w') = counts (store w) ++ news
      /\ map Counts.stream news = deployed_streams (store w).
Proof. apply for_each_stream_writes. Qed.

Lemma uframe_gather_all_writes_witness :
  exists w',
    Uframe.gather_all Example.quiet_service Example.quiet_world = Ok w'
    /\ deployed_streams (store w')
       = deployed_streams (store Example.quiet_world)
    /\ cache w' = cache Example.quiet_world.
Proof.
  eexists. split; [reflexivity|].
  destruct (uframe_gather_all_writes
              Example.quiet_service Example.quiet_world _ eq_refl)
    as (_ & _ & Hd & Hc & _).
  split; [exact Hd | exact Hc].
Defined.

Lemma for_each_stream_raises self streams w d e :
  In d streams -> Uframe._query_api self d = Raise e ->
  exists e', Uframe.for_each_stream self streams w = Raise e'.
Proof.
  revert w. induction streams as [|d0 streams IH]; intros w; [intros []|].
  simpl. unfold Uframe._create_counts. intros [-> | Hin] Hd.
  - rewrite Hd. simpl. now exists e.
  - destruct (Uframe._query_api self d0) as [[count ts]|e0]; simpl.
    + now apply IH.
    + now exists e0.
Qed.

(** X14.  A stored deployed stream whose reference designator has fewer than
    two dashes makes [_query_api] raise [ValueError], whatever the service
    answers, and with it every cycle of [gather_all] raises. *)
Theorem uframe_gather_all_unparsable self w d :
  In d (deployed_streams (store w)) ->
  (count_char dash (ReferenceDesignator.name (DeployedStream.ref_des d))
   < 2)%nat ->
  Uframe._query_api self d = Raise ValueError
  /\ exists e, Uframe.gather_all self w = Raise e.
Proof.
  intros Hin Hdash.
  assert (Hq : Uframe._query_api self d = Raise ValueError).
  { unfold Uframe._query_api.
    destruct (parse_reference_designator _) as [fields|e] eqn:Hp.
    - assert (Hok : (2 <= count_char dash
                            (ReferenceDesignator.name
                               (DeployedStream.ref_des d)))%nat)
        by (apply parse_ok_iff; now exists fields).
      lia.
    - now rewrite (parse_raises_ValueError _ _ Hp). }
  split; [exact Hq|].
  apply (for_each_stream_raises _ _ _ d ValueError Hin Hq).
Qed.

Lemma uframe_gather_all_unparsable_witness :
  Uframe._query_api
    Example.quiet_service
    (DeployedStream.mk 1 (ReferenceDesignator.mk 1 "A-B")
                       (Example.es None None))
  = Raise ValueError
  /\ exists e,
      Uframe.gather_all
        Example.quiet_service
        (mkWorld (Example.store_of
                    (DeployedStream.mk 1 (ReferenceDesignator.mk 1 "A-B")
                                       (Example.es None None)) [])
                 [])
      = Raise e.
Proof.
  apply (uframe_gather_all_unparsable
           Example.quiet_service
           (mkWorld (Example.store_of
                       (DeployedStream.mk 1 (ReferenceDesignator.mk 1 "A-B")
                                          (Example.es None None)) [])
                    [])).
  - now left.
  - simpl. lia.
Defined.

(** X15.  The observation (0, 0) that [_query_api] gives for a stream it
    could not read is stored with timestamp 0: for a stream that has a
    sample of positive timestamp, the newest sample after [_create_counts]
    is still one of the earlier samples. *)
Theorem create_counts_fault_not_newest self d w c0 :
  Uframe._query_api self d = Ok (0, 0%Q) ->
  In c0 (samples_of (store w) d) ->
  (0 < Counts.timestamp c0)%Q ->
  exists c w' lc,
    Uframe._create_counts self d w = Ok (c, w')
    /\ counts (store w') = counts (store w) ++ [Counts.mk d 0 0%Q]
    /\ _get_last_count (store w') d = Some lc
    /\ In lc (samples_of (store w) d)
    /\ (0 < Counts.timestamp lc)%Q.
Proof.
  intros Hq Hc0 Hpos. unfold Uframe._create_counts. rewrite Hq. simpl.
  set (fault := Counts.mk d 0 0%Q).
  set (st' := add_counts fault (store w)).
  assert (Hs : samples_of st' d = samples_of (store w) d ++ [fault]).
  { unfold st'. rewrite samples_of_add_counts. unfold fault.
    now rewrite counts_of_mk. }
  destruct (_get_last_count st' d) as [lc|] eqn:Hlast.
  2:{ apply get_last_count_none in Hlast. fold (samples_of st' d) in Hlast.
      rewrite Hs in Hlast. now destruct (samples_of (store w) d). }
  exists fault, (mkWorld st' (cache w)), lc.
  split; [reflexivity|]. split; [reflexivity|]. split; [exact Hlast|].
  destruct (get_last_count_newest _ _ _ Hlast) as (Hin & Hof & Hmax).
  assert (Hlc : (0 < Counts.timestamp lc)%Q).
  { apply Qlt_le_trans with (Counts.timestamp c0); [exact Hpos|].
    apply filter_In in Hc0 as [Hc0 Hc0of].
    apply Hmax; [|exact Hc0of]. unfold st', add_counts. simpl.
    apply in_or_app. now left. }
  split; [|exact Hlc].
  assert (Hin' : In lc (samples_of st' d)) by now apply filter_In.
  rewrite Hs in Hin'. apply in_app_iff in Hin' as [Hold | [<- | []]];
    [exact Hold|].
  exfalso. simpl in Hlc. discriminate Hlc.
Qed.

Lemma create_counts_fault_not_newest_witness :
  exists c w' lc,
    Uframe._create_counts (Example.service 503 []) (Example.ds None None)
                          Example.quiet_world = Ok (c, w')
    /\ counts (store w')
       = counts (store Example.quiet_world)
         ++ [Counts.mk (Example.ds None None) 0 0%Q]
    /\ _get_last_count (store w') (Example.ds None None) = Some lc
    /\ In lc (samples_of (store Example.quiet_world) (Example.ds None None))
    /\ (0 < Counts.timestamp lc)%Q.
Proof.
  apply (create_counts_fault_not_newest
           (Example.service 503 []) (Example.ds None None)
           Example.quiet_world
           (Counts.mk (Example.ds None None) 5 7%Q)).
  - reflexivity.
  - now left.
  - reflexivity.
Defined.

(** ** Imported thresholds *)

Lemma read_expected_csv_cons r rows st :
  read_expected_csv (r :: rows) st
  = read_expected_csv rows (add_expected_definition st r).
Proof. reflexivity. Qed.

Lemma read_expected_csv_tables rows :
  forall st,
    reference_designators (read_expected_csv rows st)
    = reference_designators st
    /\ deployed_streams (read_expected_csv rows st) = deployed_streams st
    /\ counts (read_expected_csv rows st) = counts st
    /\ exists news,
        expected_streams (read_expected_csv rows st)
        = expected_streams st ++ news
        /\ Forall2
             (fun row e =>
                csv_key row = (ExpectedStream.name e, ExpectedStream.method e)
                /\ ExpectedStream.rate e = Some (snd (fst row))
                /\ ExpectedStream.warn_interval e = Some (snd row)
                /\ ExpectedStream.fail_interval e = Some (snd row)
                /\ (list_max (map ExpectedStream.id (expected_streams st))
                    < ExpectedStream.id e)%nat)
             rows news.
Proof.
  induction rows as [|[[[stream method] rate] timeout] rows IH]; intros st.
  - simpl. repeat split. exists []. rewrite app_nil_r. split; constructor.
  - rewrite !read_expected_csv_cons.
    destruct (IH (add_expected_definition st (stream, method, rate, timeout)))
      as (Hr & Hd & Hc & news & He & Hnews).
    rewrite Hr, Hd, Hc, He.
    split; [reflexivity|]. split; [reflexivity|]. split; [reflexivity|].
    eexists. split.
    + simpl. rewrite <- app_assoc. reflexivity.
    + constructor.
      * simpl. repeat split. unfold next_id. lia.
      * eapply Forall2_impl; [|exact Hnews].
        intros row e (Hk & Hrate & Hw & Hf & Hid).
        repeat split; try assumption.
        unfold add_expected_definition in Hid.
        cbn [expected_streams] in Hid.
        rewrite map_app, list_max_app in Hid.
        lia.
Qed.






Lemma status_equal_thresholds st d :
  ExpectedStream.warn_interval (DeployedStream.expected_stream d)
  = ExpectedStream.fail_interval (DeployedStream.expected_stream d) ->
  status st d <> OPERATIONAL.
Proof.
  intros Heq. rewrite status_cases. cbv zeta. rewrite Heq.
  destruct (and_below _ _); discriminate.
Qed.

(** X17.  [read_expected_csv] stores the timeout of a row as both
    thresholds, and [status] never returns OPERATIONAL for a stream whose
    expected stream was stored that way, whatever its samples. *)
Theorem imported_never_operational rows st d st_now :
  In (DeployedStream.expected_stream d)
     (expected_streams (read_expected_csv rows st)) ->
  ~ In (DeployedStream.expected_stream d) (expected_streams st) ->
  ExpectedStream.warn_interval (DeployedStream.expected_stream d)
  = ExpectedStream.fail_interval (DeployedStream.expected_stream d)
  /\ status st_now d <> OPERATIONAL.
Proof.
  intros Hin Hold.
  destruct (read_expected_csv_tables rows st)
    as (_ & _ & _ & news & He & Hnews).
  rewrite He in Hin. apply in_app_iff in Hin as [Hin | Hin]; [contradiction|].
  assert (Heq : ExpectedStream.warn_interval (DeployedStream.expected_stream d)
                = ExpectedStream.fail_interval
                    (DeployedStream.expected_stream d)).
  { clear He Hold. induction Hnews as [|row e rows news Hrow _ IH];
      [destruct Hin|].
    destruct Hin as [<- | Hin]; [|now apply IH].
    destruct Hrow as (_ & _ & Hw & Hf & _). now rewrite Hw, Hf. }
  split; [exact Heq | now apply status_equal_thresholds].
Qed.

Lemma imported_never_operational_witness :
  status (Example.store_with_rate
            (DeployedStream.mk 1 Example.rd
               (ExpectedStream.mk 1 "st1" "telemetered"
                                  (Some 1%Q) (Some 30%Q) (Some 30%Q))) 8)
         (DeployedStream.mk 1 Example.rd
            (ExpectedStream.mk 1 "st1" "telemetered"
                               (Some 1%Q) (Some 30%Q) (Some 30%Q)))
  <> OPERATIONAL.
Proof.
  refine (proj2 (imported_never_operational
                   [("st1", "telemetered", 1%Q, 30%Q)] (store Example.empty)
                   (DeployedStream.mk 1 Example.rd
                      (ExpectedStream.mk 1 "st1" "telemetered"
                                         (Some 1%Q) (Some 30%Q) (Some 30%Q)))
                   _ _ _)).
  - now left.
  - intros [].
Defined.

(** * Ingestion against the newest sample *)

(** What [_get_last_count] reads of a store is the samples. *)
Lemma get_last_count_resolved refdes stream method w d w1 d0 :
  _get_or_create_stream refdes stream method w = (d, w1) ->
  samples_of (store w1) d0 = samples_of (store w) d0
  /\ _get_last_count (store w1) d0 = _get_last_count (store w) d0.
Proof.
  intros Hres.
  assert (Hs : samples_of (store w1) d0 = samples_of (store w) d0).
  { unfold samples_of.
    now rewrite (get_or_create_stream_counts _ _ _ _ _ _ Hres). }
  split; [exact Hs | now apply status_samples].
Qed.

(** One turn of the bulk loop, read on the store it started from. *)
Lemma ingest_row_differs w subsite node sensor f4 f5 count ntp ts d w1 :
  Datetime.utcfromtimestamp (ntp - ntp_epoch_offset) = Ok ts ->
  _get_or_create_stream (PyStr.join "-" [subsite; node; sensor]) f5 f4 w
  = (d, w1) ->
  (differs_from_newest (store w) d count ->
   Cass.ingest_row w (subsite, node, sensor, f4, f5, count, ntp)
   = Ok (mkWorld (add_counts (Counts.mk d count ts) (store w1)) (cache w1)))
  /\ (~ differs_from_newest (store w) d count ->
      Cass.ingest_row w (subsite, node, sensor, f4, f5, count, ntp) = Ok w1).
Proof.
  intros Hts Hres.
  destruct (get_last_count_resolved _ _ _ _ _ _ d Hres) as [_ Hlast].
  rewrite (ingest_row_resolved _ _ _ _ _ _ _ _ _ _ _ Hts Hres), Hlast.
  unfold differs_from_newest.
  destruct (_get_last_count (store w) d) as [lc|] eqn:Hlc.
  - destruct (Z.eqb_spec (Counts.particle_count lc) count) as [Heq | Hne];
      simpl; split.
    + intros [Hempty | (lc' & [= <-] & Hne)]; [|contradiction].
      apply get_last_count_none in Hempty. congruence.
    + reflexivity.
    + reflexivity.
    + intros Hnot. exfalso. apply Hnot. right. now exists lc.
  - split; [reflexivity|].
    intros Hnot. exfalso. apply Hnot. left.
    now apply get_last_count_none.
Qed.

(** A sample that is newer than all samples of its stream is the newest one
    once it is added. *)
Lemma get_last_count_added st d count ts lc :
  newer_than_samples st d ts ->
  _get_last_count (add_counts (Counts.mk d count ts) st) d = Some lc ->
  lc = Counts.mk d count ts.
Proof.
  intros Hnewer Hlc.
  destruct (get_last_count_newest _ _ _ Hlc) as (Hin & Hof & Hmax).
  assert (Hlcs : In lc (samples_of (add_counts (Counts.mk d count ts) st) d))
    by now apply filter_In.
  rewrite samples_of_add_counts, counts_of_mk in Hlcs.
  apply in_app_iff in Hlcs as [Hold | [<- | []]]; [|reflexivity].
  exfalso. apply (Qlt_not_le _ _ (Hnewer lc Hold)).
  apply (Hmax (Counts.mk d count ts)).
  - unfold add_counts. simpl. apply in_or_app. right. now left.
  - apply counts_of_mk.
Qed.

Lemma get_last_count_added_some st d c :
  counts_of d c = true -> _get_last_count (add_counts c st) d <> None.
Proof.
  intros Hc Hnone. apply get_last_count_none in Hnone.
  fold (samples_of (add_counts c st) d) in Hnone.
  rewrite samples_of_add_counts, Hc in Hnone.
  now destruct (samples_of st d).
Qed.

(** C3, as the code has it.  The row is compared with the newest sample of
    the resolved stream, newest by timestamp: a sample is appended exactly
    when the stream has no sample or that newest sample has another count.
    A row that is appended and is newer than every sample of its stream,
    followed by a row of the same count (same or other timestamp), leaves
    exactly one new sample; a row that repeats the newest count appends
    nothing, whatever its timestamp. *)
Theorem ingest_row_dedup_newest
  w subsite node sensor f4 f5 count ntp ts d w1 :
  Datetime.utcfromtimestamp (ntp - ntp_epoch_offset) = Ok ts ->
  _get_or_create_stream (PyStr.join "-" [subsite; node; sensor]) f5 f4 w
  = (d, w1) ->
  (_get_last_count (store w) d = None <-> samples_of (store w) d = [])
  /\ (forall lc,
         _get_last_count (store w) d = Some lc ->
         In lc (samples_of (store w) d)
         /\ forall c, In c (samples_of (store w) d) ->
                      (Counts.timestamp c <= Counts.timestamp lc)%Q)
  /\ (exists w',
         Cass.ingest_row w (subsite, node, sensor, f4, f5, count, ntp) = Ok w'
         /\ (differs_from_newest (store w) d count ->
             counts (store w')
             = counts (store w) ++ [Counts.mk d count ts])
         /\ (~ differs_from_newest (store w) d count ->
             counts (store w') = counts (store w)))
  /\ (forall ntp' ts',
         Datetime.utcfromtimestamp (ntp' - ntp_epoch_offset) = Ok ts' ->
         differs_from_newest (store w) d count ->
         newer_than_samples (store w) d ts ->
         exists w2,
           Cass._counts_from_rows
             [(subsite, node, sensor, f4, f5, count, ntp);
              (subsite, node, sensor, f4, f5, count, ntp')] w = Ok w2
           /\ counts (store w2)
              = counts (store w) ++ [Counts.mk d count ts])
  /\ (forall ntp' ts' lc,
         Datetime.utcfromtimestamp (ntp' - ntp_epoch_offset) = Ok ts' ->
         _get_last_count (store w) d = Some lc ->
         Counts.particle_count lc = count ->
         exists w',
           Cass.ingest_row w (subsite, node, sensor, f4, f5, count, ntp')
           = Ok w'
           /\ counts (store w') = counts (store w)).
Proof.
  intros Hts Hres.
  pose proof (get_or_create_stream_counts _ _ _ _ _ _ Hres) as Hcounts.
  destruct (ingest_row_differs _ _ _ _ _ _ count _ _ _ _ Hts Hres)
    as [Hyes Hno].
  split; [apply get_last_count_none|].
  split.
  { intros lc Hlc.
    destruct (get_last_count_newest _ _ _ Hlc) as (Hin & Hof & Hmax).
    split; [now apply filter_In|].
    intros c Hc. apply filter_In in Hc as [Hc Hcof]. now apply Hmax. }
  split.
  { destruct (_get_last_count (store w) d) as [lc|] eqn:Hlc.
    - destruct (Z.eq_dec (Counts.particle_count lc) count) as [Heq | Hne].
      + assert (Hnot : ~ differs_from_newest (store w) d count).
        { intros [Hempty | (lc' & Hlc' & Hne)].
          - apply get_last_count_none in Hempty. congruence.
          - congruence. }
        exists w1. split; [now apply Hno|]. split; [contradiction|].
        intros _. exact Hcounts.
      + assert (Hd : differs_from_newest (store w) d count)
          by (right; now exists lc).
        eexists. split; [now apply Hyes|]. split; [|contradiction].
        intros _. simpl. now rewrite Hcounts.
    - assert (Hd : differs_from_newest (store w) d count)
        by (left; now apply get_last_count_none).
      eexists. split; [now apply Hyes|]. split; [|contradiction].
      intros _. simpl. now rewrite Hcounts. }
  split.
  - intros ntp' ts' Hts' Hd Hnewer.
    rewrite counts_from_rows_cons, (Hyes Hd). unfold rbind.
    pose proof (get_or_create_stream_cached _ _ _ _ _ _ Hres) as Hk.
    set (c := Counts.mk d count ts).
    set (wa := mkWorld (add_counts c (store w1)) (cache w1)).
    destruct (get_or_create_stream_hit _ _ _ wa d Hk) as (ca & Hhit).
    rewrite counts_from_rows_cons.
    rewrite (ingest_row_resolved _ _ _ _ _ _ _ _ _ _ _ Hts' Hhit).
    cbn [store wa].
    assert (Hnewer1 : newer_than_samples (store w1) d ts).
    { intros x Hx. apply Hnewer.
      now rewrite <- (proj1 (get_last_count_resolved _ _ _ _ _ _ d Hres)). }
    destruct (_get_last_count (add_counts c (store w1)) d) as [lc|] eqn:Hlc.
    2:{ exfalso. apply (get_last_count_added_some (store w1) d c);
          [apply counts_of_mk | exact Hlc]. }
    rewrite (get_last_count_added _ _ _ _ _ Hnewer1 Hlc).
    cbn [Counts.particle_count]. rewrite Z.eqb_refl. simpl.
    eexists. split; [reflexivity|]. simpl. now rewrite Hcounts.
  - intros ntp' ts' lc Hts' Hlc Hsame.
    destruct (ingest_row_differs _ _ _ _ _ _ count _ _ _ _ Hts' Hres)
      as [_ Hno'].
    exists w1. split; [|exact Hcounts]. apply Hno'.
    intros [Hempty | (lc' & Hlc' & Hne)].
    + apply get_last_count_none in Hempty. congruence.
    + congruence.
Qed.

Lemma ingest_row_dedup_newest_witness :
  exists w2,
    Cass._counts_from_rows
      [Example.row 110 2208988820%Q; Example.row 110 2208988830%Q]
      Example.first_sample = Ok w2
    /\ List.length (counts (store w2)) = 2%nat.
Proof.
  destruct (ingest_row_dedup_newest
              Example.first_sample "A" "B" "C" "st1" "telemetered"
              110 2208988820%Q 20%Q
              (fst (_get_or_create_stream "A-B-C" "telemetered" "st1"
                      Example.first_sample))
              (snd (_get_or_create_stream "A-B-C" "telemetered" "st1"
                      Example.first_sample))
              eq_refl (surjective_pairing _)) as (_ & _ & _ & Htwice & _).
  destruct (Htwice 2208988830%Q 30%Q eq_refl) as (w2 & Hrun & Hcounts).
  - right. eexists. split; [reflexivity | discriminate].
  - intros c [<- | []]. reflexivity.
  - exists w2. split; [exact Hrun|]. rewrite Hcounts. reflexivity.
Defined.

(** C3, as stated, fails: after a sample of 100 particles at second 10, the
    row of 50 particles at second 5 is appended both times it is taken; it
    never becomes the newest sample, so the second turn compares with 100
    again. *)
Lemma ingest_late_row_twice_appends_twice :
  ~ (forall w r w2,
        Cass._counts_from_rows [r; r] w = Ok w2 ->
        (List.length (counts (store w2))
         <= S (List.length (counts (store w))))%nat).
Proof.
  intros Hclaim.
  specialize (Hclaim Example.first_sample late_row _ eq_refl).
  vm_compute in Hclaim. lia.
Qed.

(** * The per-stream collector does not dedup *)

(** C4.  The service answers (5, 7) for the only known stream, whose newest
    sample is (5, 7): [UframeStatusMonitor.gather_all] appends a second
    sample (5, 7).  The bulk collector, given a row that repeats the newest
    count 100 of its stream, appends nothing. *)
Theorem uframe_gather_all_skips_dedup :
  deployed_streams (store Example.quiet_world) = [Example.ds None None]
  /\ unchanged_observation Example.quiet_service (store Example.quiet_world)
                           (Example.ds None None)
  /\ (exists w',
         Uframe.gather_all Example.quiet_service Example.quiet_world = Ok w'
         /\ counts (store w')
            = counts (store Example.quiet_world)
              ++ [Counts.mk (Example.ds None None) 5 7%Q])
  /\ unchanged_row (store Example.first_sample)
                   (Example.row 100 2208988820%Q)
  /\ (exists w',
         Cass.gather_all [Example.metadata 100 2208988820%Q]
                         Example.first_sample = Ok w'
         /\ counts (store w') = counts (store Example.first_sample)).
Proof.
  split; [reflexivity|]. split.
  { eexists. split; reflexivity. }
  split.
  { eexists. split; reflexivity. }
  split.
  { eexists. eexists. eexists.
    split; [reflexivity|]. split; [reflexivity|]. split; reflexivity. }
  eexists. split; reflexivity.
Qed.

(** * Counts along the timestamps, for both collectors *)

(** A sample that is newer than the samples of its stream and not below
    the newest of them keeps the counts non-decreasing. *)
Lemma monotone_add_counts st d count ts :
  monotone_counts (counts st) ->
  newer_than_samples st d ts ->
  (forall lc, _get_last_count st d = Some lc ->
              Counts.particle_count lc <= count) ->
  monotone_counts (counts (add_counts (Counts.mk d count ts) st)).
Proof.
  intros Hmono Hnewer Hnotlower a b Ha Hb Hab Hle.
  unfold add_counts in Ha, Hb. simpl in Ha, Hb.
  apply in_app_iff in Ha as [Ha | [<- | []]];
    apply in_app_iff in Hb as [Hb | [<- | []]].
  - now apply Hmono.
  - simpl. assert (Hda : counts_of d a = true).
    { unfold counts_of in *. simpl in Hab.
      apply Nat.eqb_eq in Hab. apply Nat.eqb_eq. congruence. }
    destruct (_get_last_count st d) as [lc|] eqn:Hlast.
    + destruct (get_last_count_newest _ _ _ Hlast) as (Hin & Hdlc & Hmax).
      apply Z.le_trans with (Counts.particle_count lc).
      * apply Hmono; auto. now apply (counts_of_same d).
      * now apply Hnotlower.
    + apply get_last_count_none in Hlast.
      assert (Hf : In a (filter (counts_of d) (counts st)))
        by now apply filter_In.
      rewrite Hlast in Hf. destruct Hf.
  - exfalso. simpl in Hab, Hle.
    apply (Qlt_not_le _ _ (Hnewer b (proj2 (filter_In _ _ _)
                                             (conj Hb Hab)))), Hle.
  - apply Z.le_refl.
Qed.

(** C9, as the code has it.  Neither collector compares a count with [<].
    The bulk loop appends a row exactly when its stream has no sample or the
    newest sample has another count, higher or lower; [_create_counts]
    appends whatever [_query_api] answered.  For both, non-decreasing counts
    are kept by a step whose sample is newer than the samples of its stream
    and not below the newest of them. *)
Theorem ingest_monotone_counts :
  (forall w subsite node sensor f4 f5 count ntp ts d w1,
      Datetime.utcfromtimestamp (ntp - ntp_epoch_offset) = Ok ts ->
      _get_or_create_stream (PyStr.join "-" [subsite; node; sensor]) f5 f4 w
      = (d, w1) ->
      exists w',
        Cass.ingest_row w (subsite, node, sensor, f4, f5, count, ntp) = Ok w'
        /\ (differs_from_newest (store w) d count ->
            counts (store w')
            = counts (store w) ++ [Counts.mk d count ts])
        /\ (~ differs_from_newest (store w) d count ->
            counts (store w') = counts (store w))
        /\ (monotone_counts (counts (store w)) ->
            newer_than_samples (store w) d ts ->
            (forall lc, _get_last_count (store w) d = Some lc ->
                        Counts.particle_count lc <= count) ->
            monotone_counts (counts (store w'))))
  /\ (forall self d w count ts,
         Uframe._query_api self d = Ok (count, ts) ->
         exists c w',
           Uframe._create_counts self d w = Ok (c, w')
           /\ counts (store w')
              = counts (store w) ++ [Counts.mk d count ts]
           /\ (monotone_counts (counts (store w)) ->
               newer_than_samples (store w) d ts ->
               (forall lc, _get_last_count (store w) d = Some lc ->
                           Counts.particle_count lc <= count) ->
               monotone_counts (counts (store w')))).
Proof.
  split.
  - intros w subsite node sensor f4 f5 count ntp ts d w1 Hts Hres.
    pose proof (get_or_create_stream_counts _ _ _ _ _ _ Hres) as Hcounts.
    destruct (get_last_count_resolved _ _ _ _ _ _ d Hres) as [Hs Hlast].
    destruct (ingest_row_differs _ _ _ _ _ _ count _ _ _ _ Hts Hres)
      as [Hyes Hno].
    assert (Hdec : differs_from_newest (store w) d count
                   \/ ~ differs_from_newest (store w) d count).
    { unfold differs_from_newest.
      destruct (_get_last_count (store w) d) as [lc|] eqn:Hlc.
      - destruct (Z.eq_dec (Counts.particle_count lc) count) as [Heq | Hne].
        + right. intros [Hempty | (lc' & [= <-] & Hne)]; [|contradiction].
          apply get_last_count_none in Hempty. congruence.
        + left. right. now exists lc.
      - left. left. now apply get_last_count_none. }
    destruct Hdec as [Hd | Hnot].
    + eexists. split; [now apply Hyes|].
      split; [intros _; simpl; now rewrite Hcounts|].
      split; [contradiction|].
      intros Hmono Hnewer Hnotlower. cbn [store].
      apply monotone_add_counts.
      * now rewrite Hcounts.
      * intros c Hc. apply Hnewer. now rewrite <- Hs.
      * intros lc Hlc. apply Hnotlower. now rewrite <- Hlast.
    + exists w1. split; [now apply Hno|].
      split; [contradiction|]. split; [intros _; exact Hcounts|].
      intros Hmono _ _. now rewrite Hcounts.
  - intros self d w count ts Hq.
    unfold Uframe._create_counts. rewrite Hq. simpl.
    eexists. eexists. split; [reflexivity|]. split; [reflexivity|].
    intros Hmono Hnewer Hnotlower. cbn [store].
    now apply monotone_add_counts.
Qed.

Lemma ingest_monotone_counts_witness :
  (exists w',
      Cass.ingest_row Example.first_sample (Example.row 110 2208988820%Q)
      = Ok w'
      /\ monotone_counts (counts (store w')))
  /\ (exists c w',
         Uframe._create_counts Example.quiet_service (Example.ds None None)
                               Example.quiet_world = Ok (c, w')
         /\ counts (store w')
            = counts (store Example.quiet_world)
              ++ [Counts.mk (Example.ds None None) 5 7%Q]).
Proof.
  split.
  - destruct (proj1 ingest_monotone_counts
                Example.first_sample "A" "B" "C" "st1" "telemetered"
                110 2208988820%Q 20%Q
                (fst (_get_or_create_stream "A-B-C" "telemetered" "st1"
                        Example.first_sample))
                (snd (_get_or_create_stream "A-B-C" "telemetered" "st1"
                        Example.first_sample))
                eq_refl (surjective_pairing _))
      as (w' & Hrun & _ & _ & Hmono).
    exists w'. split; [exact Hrun|]. apply Hmono.
    + intros a b [<- | []] [<- | []] _ _. apply Z.le_refl.
    + intros c [<- | []]. reflexivity.
    + intros lc Hlc. vm_compute in Hlc. injection Hlc as <-. discriminate.
  - destruct (proj2 ingest_monotone_counts
                Example.quiet_service (Example.ds None None)
                Example.quiet_world 5 7%Q eq_refl)
      as (c & w' & Hrun & Hcounts & _).
    exists c, w'. split; [exact Hrun | exact Hcounts].
Defined.

(** * What a failed batch leaves behind *)

Lemma world_after_raise rows w e :
  Cass._counts_from_rows rows w = Raise e ->
  store (world_after rows w) = store w.
Proof. intros Hrun. unfold world_after. now rewrite Hrun. Qed.

(** The first row of the batch creates a stream and caches it; the second
    raises; the store is rolled back and the cache still holds the stream,
    so the cache no longer agrees with the store. *)
Lemma failed_batch_leaves_stale_cache :
  Cass._counts_from_rows failing_batch Example.empty = Raise TimestampError
  /\ store (world_after failing_batch Example.empty) = store Example.empty
  /\ ~ cache_coherent (world_after failing_batch Example.empty).
Proof.
  split; [reflexivity|]. split; [reflexivity|].
  intros Hco.
  specialize (Hco "A-B-C" "telemetered" "st1"
                  (fst Example.resolved_by_ingest) (or_introl eq_refl)).
  discriminate Hco.
Qed.
